(** * jif: terminal GIF viewer — compositor, half-block rasterizer, playback controller

    A shallow embedding of the Go sources

      - [core] (package jif): the viewer model, its message handlers,
        the GIF compositor loop [ProcessGIF] and the half-block renderer;
      - [internal/gif] (package gif): the [Processor] with the parallel
        implementation of the same pipeline ([ProcessAllFrames],
        [renderHalfBlock], [LoadFromSource]).

    Go's [int] is a 64-bit two's complement integer; it is a [Z] here and the
    wrap-around of the arithmetic the sources perform is written out with
    [int].  The packages [image], [image/color] and [image/draw] of Go's
    standard library are modelled in the modules [Img] and [Draw]; the
    Lanczos resampler ([github.com/nfnt/resize]) and the terminal styling
    ([lipgloss]) stay abstract in the class [Externals]. *)

From Stdlib Require Import ZArith List String Ascii Bool Lia.
From Stdlib Require Import Floats.SpecFloat.
From Stdlib Require DecimalString.
Import ListNotations.
Local Open Scope Z_scope.

(* ===================================================================== *)
(** ** Machine integers *)

Module GoInt.

(** Two's complement wrap-around of a signed [bits]-bit integer. *)
Definition wrap_signed (bits : Z) (z : Z) : Z :=
  (z + 2 ^ (bits - 1)) mod 2 ^ bits - 2 ^ (bits - 1).

(** Go's [int] and [int64]. *)
Definition int (z : Z) : Z := wrap_signed 64 z.

(** Conversions to the unsigned types. *)
Definition uint8 (z : Z) : Z := z mod 2 ^ 8.
Definition uint16 (z : Z) : Z := z mod 2 ^ 16.
Definition uint32 (z : Z) : Z := z mod 2 ^ 32.
Definition uint (z : Z) : Z := z mod 2 ^ 64.

Definition minInt : Z := - 2 ^ 63.
Definition maxInt : Z := 2 ^ 63 - 1.

End GoInt.
Import GoInt.

(** A small option monad for the places where Go would panic
    (a slice indexed out of range). *)
Definition obind {A B : Type} (o : option A) (k : A -> option B) : option B :=
  match o with
  | Some a => k a
  | None => None
  end.

Notation "x <- e ;; k" := (obind e (fun x => k))
  (at level 61, e at next level, right associativity).

(* ===================================================================== *)
(** ** Package image: points, rectangles, colors, pixel buffers *)

Module Img.

Record Point := mkPoint { X : Z; Y : Z }.
Record Rectangle := mkRectangle { Min : Point; Max : Point }.

Definition ZP : Point := mkPoint 0 0.
Definition ZR : Rectangle := mkRectangle ZP ZP.

(** [image.Rect]: the corners are put in order. *)
Definition Rect (x0 y0 x1 y1 : Z) : Rectangle :=
  let (x0, x1) := if x1 <? x0 then (x1, x0) else (x0, x1) in
  let (y0, y1) := if y1 <? y0 then (y1, y0) else (y0, y1) in
  mkRectangle (mkPoint x0 y0) (mkPoint x1 y1).

Definition Dx (r : Rectangle) : Z := X (Max r) - X (Min r).
Definition Dy (r : Rectangle) : Z := Y (Max r) - Y (Min r).

Definition Empty (r : Rectangle) : bool :=
  (X (Max r) <=? X (Min r)) || (Y (Max r) <=? Y (Min r)).

Definition PointIn (p : Point) (r : Rectangle) : bool :=
  (X (Min r) <=? X p) && (X p <? X (Max r)) &&
  (Y (Min r) <=? Y p) && (Y p <? Y (Max r)).

Definition PointSub (p q : Point) : Point := mkPoint (X p - X q) (Y p - Y q).

Definition RectAdd (r : Rectangle) (p : Point) : Rectangle :=
  mkRectangle (mkPoint (X (Min r) + X p) (Y (Min r) + Y p))
              (mkPoint (X (Max r) + X p) (Y (Max r) + Y p)).

(** [Rectangle.Intersect]: the largest rectangle inside both, the zero
    rectangle when they do not overlap. *)
Definition Intersect (r s : Rectangle) : Rectangle :=
  let minx := if X (Min r) <? X (Min s) then X (Min s) else X (Min r) in
  let miny := if Y (Min r) <? Y (Min s) then Y (Min s) else Y (Min r) in
  let maxx := if X (Max s) <? X (Max r) then X (Max s) else X (Max r) in
  let maxy := if Y (Max s) <? Y (Max r) then Y (Max s) else Y (Max r) in
  let r' := mkRectangle (mkPoint minx miny) (mkPoint maxx maxy) in
  if Empty r' then ZR else r'.

(** What [color.Color.RGBA()] returns: alpha-premultiplied channels in
    [0, 0xffff], each held in a uint32.  The interface has no other
    method, so a color is modelled by this result. *)
Record Color := mkColor { cR : Z; cG : Z; cB : Z; cA : Z }.

(** [color.RGBA]: four 8-bit channels, as stored in an RGBA buffer. *)
Record RGBA8 := mkRGBA8 { R8 : Z; G8 : Z; B8 : Z; A8 : Z }.

Definition zeroRGBA8 : RGBA8 := mkRGBA8 0 0 0 0.

(** [color.RGBA.RGBA()]: r |= r << 8 and so on. *)
Definition RGBA8_RGBA (c : RGBA8) : Color :=
  let widen v := Z.lor v (Z.shiftl v 8) in
  mkColor (widen (R8 c)) (widen (G8 c)) (widen (B8 c)) (widen (A8 c)).

(** [color.Transparent] is [color.Alpha16{0}]. *)
Definition Transparent : Color := mkColor 0 0 0 0.

(** [*image.RGBA].  [Pix] holds the pixels row by row; the four bytes of
    a pixel are grouped into one [RGBA8], so the stride is [Dx Rect]
    pixels. *)
Record RGBA := mkRGBA { Pix : list RGBA8; RGBARect : Rectangle }.

Definition PixOffset (r : Rectangle) (x y : Z) : Z :=
  (y - Y (Min r)) * Dx r + (x - X (Min r)).

Definition NewRGBA (r : Rectangle) : RGBA :=
  mkRGBA (repeat zeroRGBA8 (Z.to_nat (Dx r * Dy r))) r.

Definition RGBAAt (p : RGBA) (x y : Z) : RGBA8 :=
  if PointIn (mkPoint x y) (RGBARect p)
  then nth (Z.to_nat (PixOffset (RGBARect p) x y)) (Pix p) zeroRGBA8
  else zeroRGBA8.

(** [*image.Paletted]: one palette index per pixel.  The GIF decoder
    fills the palette with [color.RGBA] values and rejects indices
    outside it. *)
Record Paletted := mkPaletted
  { PPix : list Z; PRect : Rectangle; Palette : list RGBA8 }.

Definition PalettedAt (p : Paletted) (x y : Z) : Color :=
  match Palette p with
  | [] => Transparent
  | c0 :: _ =>
      if PointIn (mkPoint x y) (PRect p)
      then RGBA8_RGBA
             (nth (Z.to_nat (nth (Z.to_nat (PixOffset (PRect p) x y)) (PPix p) 0))
                  (Palette p) zeroRGBA8)
      else RGBA8_RGBA c0
  end.

(** The interface [image.Image]: bounds and a color at every point. *)
Record Image := mkImage { Bounds : Rectangle; At : Z -> Z -> Color }.

Definition RGBA_Image (p : RGBA) : Image :=
  mkImage (RGBARect p) (fun x y => RGBA8_RGBA (RGBAAt p x y)).

Definition Paletted_Image (p : Paletted) : Image :=
  mkImage (PRect p) (PalettedAt p).

(** [image.Uniform]: an unbounded image of one color. *)
Definition UniformBounds : Rectangle :=
  mkRectangle (mkPoint (-1000000000) (-1000000000))
              (mkPoint 1000000000 1000000000).

Definition Uniform_Image (c : Color) : Image :=
  mkImage UniformBounds (fun _ _ => c).

End Img.
Import Img.

(* ===================================================================== *)
(** ** Package image/draw on an RGBA destination *)

Module Draw.

Inductive Op := Over | Src.

(** The source images the viewer draws from; [draw.Draw] picks its code
    path by the dynamic type of the source. *)
Inductive Source :=
| SrcRGBA (p : RGBA)
| SrcPaletted (p : Paletted)
| SrcUniform (c : Color).

Definition SourceImage (s : Source) : Image :=
  match s with
  | SrcRGBA p => RGBA_Image p
  | SrcPaletted p => Paletted_Image p
  | SrcUniform c => Uniform_Image c
  end.

(** [clip]: restrict [r] to the destination and to the part of the source
    that [sp] aligns with it, and move [sp] along. *)
Definition clip (dstBounds r srcBounds : Rectangle) (sp : Point)
  : Rectangle * Point :=
  let orig := Min r in
  let r1 := Intersect r dstBounds in
  let r2 := Intersect r1 (RectAdd srcBounds (PointSub orig sp)) in
  let dx := X (Min r2) - X orig in
  let dy := Y (Min r2) - Y orig in
  (r2, mkPoint (X sp + dx) (Y sp + dy)).

Definition m16 : Z := 65535.

(** One channel of [drawRGBA] without a mask, for a source that implements
    [image.RGBA64Image] (as [*image.Paletted] and [*image.RGBA] do):
    [a := (m - uint32(srgba.A)) * 0x101] and
    [d = uint8((d*a/m + uint32(srgba.R)) >> 8)], in uint32 arithmetic. *)
Definition overChannel (d s sa : Z) : Z :=
  let a := uint32 ((m16 - uint16 sa) * 257) in
  uint8 (Z.shiftr (uint32 (uint32 (d * a) / m16 + uint16 s)) 8).

Definition srcChannel (s : Z) : Z := uint8 (Z.shiftr (uint16 s) 8).

Definition drawRGBAPixel (op : Op) (d : RGBA8) (s : Color) : RGBA8 :=
  match op with
  | Over => mkRGBA8 (overChannel (R8 d) (cR s) (cA s))
                    (overChannel (G8 d) (cG s) (cA s))
                    (overChannel (B8 d) (cB s) (cA s))
                    (overChannel (A8 d) (cA s) (cA s))
  | Src => mkRGBA8 (srcChannel (cR s)) (srcChannel (cG s))
                   (srcChannel (cB s)) (srcChannel (cA s))
  end.

(** The value written at one destination pixel.  With [Src], an RGBA
    source is copied byte for byte ([drawCopySrc]) and a uniform source
    is stored as its high bytes ([drawFillSrc]); a paletted source goes
    through [drawRGBA].  The viewer draws with [Over] from paletted
    frames only. *)
Definition pixelOp (op : Op) (src : Source) (sx sy : Z) (d : RGBA8) : RGBA8 :=
  match op, src with
  | Src, SrcRGBA p => RGBAAt p sx sy
  | Src, SrcUniform c =>
      mkRGBA8 (uint8 (Z.shiftr (cR c) 8)) (uint8 (Z.shiftr (cG c) 8))
              (uint8 (Z.shiftr (cB c) 8)) (uint8 (Z.shiftr (cA c) 8))
  | _, _ => drawRGBAPixel op d (At (SourceImage src) sx sy)
  end.

(** Coordinates of the [i]-th pixel of a buffer with bounds [r]. *)
Definition pixX (r : Rectangle) (i : nat) : Z := X (Min r) + Z.of_nat i mod Dx r.
Definition pixY (r : Rectangle) (i : nat) : Z := Y (Min r) + Z.of_nat i / Dx r.

(** [draw.Draw(dst, r, src, sp, op)] for a source that is not [dst]
    itself: every pixel of the clipped rectangle is replaced, the others
    are kept.  The destination is mutated in Go; here the new buffer is
    returned. *)
Definition Draw (dst : RGBA) (r : Rectangle) (src : Source) (sp : Point)
           (op : Op) : RGBA :=
  let (r', sp') := clip (RGBARect dst) r (Bounds (SourceImage src)) sp in
  if Empty r' then dst
  else
    let b := RGBARect dst in
    mkRGBA
      (map (fun i =>
              let x := pixX b i in
              let y := pixY b i in
              let d := nth i (Pix dst) zeroRGBA8 in
              if PointIn (mkPoint x y) r'
              then pixelOp op src (X sp' + (x - X (Min r')))
                                  (Y sp' + (y - Y (Min r'))) d
              else d)
           (seq 0 (List.length (Pix dst))))
      b.

End Draw.
Import Draw.


(* ===================================================================== *)
(** ** float64 *)

Module Float64.

(** IEEE 754 binary64 with round-to-nearest-even, from the Standard
    Library's executable specification of floating-point numbers. *)
Definition float64 : Type := spec_float.
Definition prec : Z := 53.
Definition emax : Z := 1024.

(** The conversion [float64(n)] of an integer. *)
Definition ofInt (n : Z) : float64 := binary_normalize prec emax n 0 false.

Definition mul (x y : float64) : float64 := SFmul prec emax x y.
Definition div (x y : float64) : float64 := SFdiv prec emax x y.

(** The conversion [int(f)]: the fraction is discarded (truncation towards
    zero).  Go leaves the result open when the value does not fit; on amd64
    it is the smallest int, also for NaN and the infinities. *)
Definition toInt (f : float64) : Z :=
  match f with
  | S754_zero _ => 0
  | S754_finite s m e =>
      let a := if 0 <=? e then Zpos m * 2 ^ e else Zpos m / 2 ^ (- e) in
      let v := if s then - a else a in
      if (minInt <=? v) && (v <=? maxInt) then v else minInt
  | _ => minInt
  end.

End Float64.

(* ===================================================================== *)
(** ** Collaborators outside the repository *)

(** [resize_Lanczos3 w h img] is [resize.Resize(w, h, img, resize.Lanczos3)]
    with [w] and [h] the uint arguments; [lipgloss_Render fg bg s] is
    [lipgloss.NewStyle().Foreground(fg).Background(bg).Render(s)], a color
    that is not set being [None]. *)
Class Externals := mkExternals
  { resize_Lanczos3 : Z -> Z -> Image -> Image;
    lipgloss_Render : option string -> option string -> string -> string }.

(** Text the renderers of both packages emit. *)
Module Glyph.

Definition utf8 (bytes : list nat) : string :=
  fold_right (fun b s => String (ascii_of_nat b) s) EmptyString bytes.

(** U+2580 UPPER HALF BLOCK and U+2584 LOWER HALF BLOCK, each written twice:
    a cell is two characters wide. *)
Definition upperHalf2 : string := utf8 [226; 150; 128; 226; 150; 128]%nat.
Definition lowerHalf2 : string := utf8 [226; 150; 132; 226; 150; 132]%nat.
Definition blank2 : string := "  "%string.
Definition newline : string := String (ascii_of_nat 10) EmptyString.

Definition hexDigit (d : Z) : ascii :=
  if d <? 10 then ascii_of_nat (48 + Z.to_nat d)
  else ascii_of_nat (87 + Z.to_nat d).

(** [%02x] of a byte. *)
Definition hex02 (v : Z) : string :=
  String (hexDigit (v / 16)) (String (hexDigit (v mod 16)) EmptyString).

(** [fmt.Sprintf("#%02x%02x%02x", uint8(r>>8), uint8(g>>8), uint8(b>>8))]. *)
Definition hexColor (r g b : Z) : string :=
  ("#" ++ hex02 (uint8 (Z.shiftr r 8)) ++ hex02 (uint8 (Z.shiftr g 8))
       ++ hex02 (uint8 (Z.shiftr b 8)))%string.

(** The columns of one row: [for x := lo; x < hi; x++]. *)
Definition xRange (lo hi : Z) : list Z :=
  map (fun k => lo + Z.of_nat k) (seq 0 (Z.to_nat (hi - lo))).

End Glyph.
Import Glyph.

(** [image/gif]: the decoded animation and the disposal codes. *)
Module Gif.

Record GIF := mkGIF
  { Image : list Paletted; Delay : list Z; Disposal : list Z }.

Definition DisposalNone : Z := 1.
Definition DisposalBackground : Z := 2.
Definition DisposalPrevious : Z := 3.

End Gif.
Import Gif.


(* ===================================================================== *)
(** ** The fetch and decode layers *)

Module Net.

(** Go's [error]; nil is [None]. *)
Definition error : Type := option string.

Record Response := mkResponse
  { StatusCode : Z; Status : string; Body : string }.

(** What the fetch and decode layers answer: [http.Get], [os.Open] and
    [gif.DecodeAll] return a value or an error. *)
Inductive result (A : Type) :=
| Ok (a : A)
| Err (e : string).
Arguments Ok {A} a.
Arguments Err {A} e.

Definition errorOf {A : Type} (r : result A) : error :=
  match r with
  | Ok _ => None
  | Err e => Some e
  end.

Class World := mkWorld
  { http_Get : string -> result Response;
    os_Open : string -> result string;
    gif_DecodeAll : string -> result Gif.GIF }.

Definition StatusOK : Z := 200.

End Net.
Import Net.

(* ===================================================================== *)
(** ** Package jif (core): the viewer *)

Module Core.

Record progressMsg := mkProgressMsg
  { partialFrame : string; rowsComplete : Z; totalRows : Z }.

(** The messages [Update] dispatches on.  A key message is modelled by
    what [msg.String()] returns. *)
Inductive Msg :=
| KeyMsg (key : string)
| frameMsg
| progress (p : progressMsg)
| processingCompleteMsg
| WindowSizeMsg (width height : Z).

(** The commands the handlers return; Go's nil command is [None]. *)
Inductive Cmd :=
| ProcessGIFCmd
| TickCmd (nanoseconds : Z)
| QuitCmd.

Record model := mkModel
  { GIF : Gif.GIF;
    Frames : list string;
    CurrentFrame : Z;
    Width : Z;
    Height : Z;
    Paused : bool;
    ShowHelp : bool;
    Ready : bool;
    Loading : bool;
    LoadingFrame : string;
    LoadingRows : Z;
    TotalRows : Z }.

Definition set_Frames (m : model) (v : list string) : model :=
  mkModel (GIF m) v (CurrentFrame m) (Width m) (Height m) (Paused m)
          (ShowHelp m) (Ready m) (Loading m) (LoadingFrame m) (LoadingRows m)
          (TotalRows m).

Definition set_CurrentFrame (m : model) (v : Z) : model :=
  mkModel (GIF m) (Frames m) v (Width m) (Height m) (Paused m)
          (ShowHelp m) (Ready m) (Loading m) (LoadingFrame m) (LoadingRows m)
          (TotalRows m).

Definition set_Size (m : model) (w h : Z) : model :=
  mkModel (GIF m) (Frames m) (CurrentFrame m) w h (Paused m)
          (ShowHelp m) (Ready m) (Loading m) (LoadingFrame m) (LoadingRows m)
          (TotalRows m).

Definition set_Paused (m : model) (v : bool) : model :=
  mkModel (GIF m) (Frames m) (CurrentFrame m) (Width m) (Height m) v
          (ShowHelp m) (Ready m) (Loading m) (LoadingFrame m) (LoadingRows m)
          (TotalRows m).

Definition set_ShowHelp (m : model) (v : bool) : model :=
  mkModel (GIF m) (Frames m) (CurrentFrame m) (Width m) (Height m) (Paused m)
          v (Ready m) (Loading m) (LoadingFrame m) (LoadingRows m)
          (TotalRows m).

Definition set_Ready (m : model) (v : bool) : model :=
  mkModel (GIF m) (Frames m) (CurrentFrame m) (Width m) (Height m) (Paused m)
          (ShowHelp m) v (Loading m) (LoadingFrame m) (LoadingRows m)
          (TotalRows m).

Definition set_Loading (m : model) (v : bool) : model :=
  mkModel (GIF m) (Frames m) (CurrentFrame m) (Width m) (Height m) (Paused m)
          (ShowHelp m) (Ready m) v (LoadingFrame m) (LoadingRows m)
          (TotalRows m).

Definition set_LoadingView (m : model) (frame : string) (rows total : Z)
  : model :=
  mkModel (GIF m) (Frames m) (CurrentFrame m) (Width m) (Height m) (Paused m)
          (ShowHelp m) (Ready m) (Loading m) frame rows total.

(** [len] of a slice. *)
Definition len {A : Type} (l : list A) : Z := Z.of_nat (List.length l).

(* --------------------------------------------------------------------- *)
(** *** Rendering *)

(** [renderHalfBlockChar]: two vertically stacked pixels become one cell. *)
Definition renderHalfBlockChar `{Externals} (topColor bottomColor : Color)
  : string :=
  let '(topR, topG, topB, topA) :=
    (cR topColor, cG topColor, cB topColor, cA topColor) in
  let '(bottomR, bottomG, bottomB, bottomA) :=
    (cR bottomColor, cG bottomColor, cB bottomColor, cA bottomColor) in
  if (topA =? 0) && (bottomA =? 0) then blank2
  else if topA =? 0 then
    let hex := hexColor bottomR bottomG bottomB in
    lipgloss_Render (Some hex) None lowerHalf2
  else if bottomA =? 0 then
    let hex := hexColor topR topG topB in
    lipgloss_Render (Some hex) None upperHalf2
  else
    let topHex := hexColor topR topG topB in
    let bottomHex := hexColor bottomR bottomG bottomB in
    lipgloss_Render (Some topHex) (Some bottomHex) upperHalf2.

(** [calculateImageSize]: the target size of the image within the
    terminal. *)
Definition calculateImageSize (m : model) (img : Img.Image) : Z * Z :=
  let maxWidth := Z.quot (Width m) 2 in
  let ratio :=
    Float64.div (Float64.ofInt (Dy (Bounds img)))
                (Float64.ofInt (Dx (Bounds img))) in
  let targetHeight :=
    Float64.toInt
      (Float64.mul (Float64.mul (Float64.ofInt maxWidth) ratio)
                   (Float64.ofInt 2)) in
  if int (Height m * 2) <? targetHeight then
    let targetHeight := int (Height m * 2) in
    let maxWidth :=
      Float64.toInt
        (Float64.div (Float64.div (Float64.ofInt targetHeight) ratio)
                     (Float64.ofInt 2)) in
    (maxWidth, targetHeight)
  else (maxWidth, targetHeight).

(** One pass of the inner loop: the cells of the row that starts at pixel
    row [y]. *)
Definition renderRow `{Externals} (resized : Img.Image) (y : Z) : string :=
  let bounds := Bounds resized in
  fold_left
    (fun sb x =>
       let topColor := At resized x y in
       let bottomColor :=
         if y + 1 <? Y (Max bounds) then At resized x (y + 1)
         else Transparent in
       (sb ++ renderHalfBlockChar topColor bottomColor)%string)
    (xRange (X (Min bounds)) (X (Max bounds))) EmptyString.

(** The outer loop [for y := bounds.Min.Y; y < bounds.Max.Y; y += 2].  The
    loop leaves by its condition; [fuel] bounds the number of passes.  The
    result is the text built so far and the progress messages sent, oldest
    first.  The bounds are those of an image held in memory, so the sums
    below stay inside [int]. *)
Fixpoint rowLoop `{Externals} (resized : Img.Image) (totalRows : Z)
         (progressChan : bool) (fuel : nat) (y : Z) (sb : string)
         (currentRow : Z) : string * list progressMsg :=
  match fuel with
  | O => (sb, [])
  | S fuel' =>
      if y <? Y (Max (Bounds resized)) then
        let sb := (sb ++ renderRow resized y ++ newline)%string in
        let currentRow := currentRow + 1 in
        let sent :=
          if progressChan &&
             ((Z.rem currentRow 2 =? 0) || (Y (Max (Bounds resized)) <=? y + 2))
          then [mkProgressMsg sb currentRow totalRows]
          else [] in
        let (text, later) :=
          rowLoop resized totalRows progressChan fuel' (y + 2) sb currentRow in
        (text, sent ++ later)
      else (sb, [])
  end.

(** [renderImageHalfBlock]: the image as half-block text, with the progress
    messages written to [progressChan] when it is not nil. *)
Definition renderImageHalfBlock `{Externals} (m : model) (img : Img.Image)
           (progressChan : bool) : string * list progressMsg :=
  let (width, height) := calculateImageSize m img in
  let resized := resize_Lanczos3 (uint width) (uint height) img in
  let bounds := Bounds resized in
  let totalRows := Z.quot (Y (Max bounds) - Y (Min bounds) + 1) 2 in
  rowLoop resized totalRows progressChan
          (Z.to_nat (Y (Max bounds) - Y (Min bounds)))
          (Y (Min bounds)) EmptyString 0.

(* --------------------------------------------------------------------- *)
(** *** GIF processing *)

(** [getGifDimensions]: the canvas size needed for all frames.  The four
    accumulators start at zero. *)
Definition getGifDimensions (g : Gif.GIF) : Z * Z :=
  let '(lowestX, lowestY, highestX, highestY) :=
    fold_left
      (fun '(lowestX, lowestY, highestX, highestY) (img : Paletted) =>
         let lowestX :=
           if X (Min (PRect img)) <? lowestX then X (Min (PRect img))
           else lowestX in
         let lowestY :=
           if Y (Min (PRect img)) <? lowestY then Y (Min (PRect img))
           else lowestY in
         let highestX :=
           if highestX <? X (Max (PRect img)) then X (Max (PRect img))
           else highestX in
         let highestY :=
           if highestY <? Y (Max (PRect img)) then Y (Max (PRect img))
           else highestY in
         (lowestX, lowestY, highestX, highestY))
      (Image g) (0, 0, 0, 0) in
  (int (highestX - lowestX), int (highestY - lowestY)).

(** [processFrame]: the disposal of the frame drawn before.  The new
    contents of [currentImg] are returned. *)
Definition processFrame (currentImg previousImg : RGBA) (srcImg : Paletted)
           (disposal : Z) : RGBA :=
  if disposal =? DisposalBackground then
    Draw currentImg (PRect srcImg) (SrcUniform Transparent) ZP Src
  else if disposal =? DisposalPrevious then
    Draw currentImg (RGBARect currentImg) (SrcRGBA previousImg) ZP Src
  else currentImg.

(** The two buffers the frame loop of [ProcessGIF] works on. *)
Record Canvas := mkCanvas { currentImage : RGBA; previousImage : RGBA }.

Definition newCanvas (g : Gif.GIF) : Canvas :=
  let (imgWidth, imgHeight) := getGifDimensions g in
  mkCanvas (NewRGBA (Rect 0 0 imgWidth imgHeight))
           (NewRGBA (Rect 0 0 imgWidth imgHeight)).

(** "Save previous state if needed": the first statement of the loop body.
    [Disposal[i-1]] is read only when [i > 0]; an index outside the slice
    is a panic, [None] here. *)
Definition savePrevious (g : Gif.GIF) (i : nat) (c : Canvas) : option Canvas :=
  match i with
  | O => Some c
  | S j =>
      d <- nth_error (Disposal g) j ;;
      Some (if d =? DisposalPrevious
            then mkCanvas (currentImage c)
                          (Draw (previousImage c) (RGBARect (previousImage c))
                                (SrcRGBA (currentImage c)) ZP Src)
            else c)
  end.

(** "Apply disposal method from previous frame": the second statement. *)
Definition applyDisposal (g : Gif.GIF) (i : nat) (c : Canvas) : option Canvas :=
  match i with
  | O => Some c
  | S j =>
      prevImg <- nth_error (Image g) j ;;
      d <- nth_error (Disposal g) j ;;
      Some (mkCanvas
              (processFrame (currentImage c) (previousImage c) prevImg d)
              (previousImage c))
  end.

(** "Composite current frame": the third statement. *)
Definition composite (c : Canvas) (srcImg : Paletted) : Canvas :=
  mkCanvas (Draw (currentImage c) (RGBARect (currentImage c))
                 (SrcPaletted srcImg) ZP Over)
           (previousImage c).

(** "Create a copy for rendering". *)
Definition imgCopy (currentImage : RGBA) : RGBA :=
  let copy := NewRGBA (RGBARect currentImage) in
  Draw copy (RGBARect copy) (SrcRGBA currentImage) ZP Src.

(** The loop [for i, srcImg := range m.GIF.Image], from index [i] on with
    [imgs] the frames still to come: the frame strings and the progress
    messages (first frame only). *)
Fixpoint frameLoop `{Externals} (m : model) (imgs : list Paletted) (i : nat)
         (c : Canvas) : option (list string * list progressMsg) :=
  match imgs with
  | [] => Some ([], [])
  | srcImg :: rest =>
      c <- savePrevious (GIF m) i c ;;
      c <- applyDisposal (GIF m) i c ;;
      let c := composite c srcImg in
      let (frame, sent) :=
        renderImageHalfBlock m (RGBA_Image (imgCopy (currentImage c)))
                             (Nat.eqb i 0) in
      r <- frameLoop m rest (S i) c ;;
      Some (frame :: fst r, (sent ++ snd r)%list)
  end.

(** The command [ProcessGIF] returns: it stores the frames in the model
    and ends with [processingCompleteMsg]; the progress messages are
    forwarded to the program meanwhile.  [m.Width] and [m.Height] are the
    values the command reads. *)
Definition ProcessGIF `{Externals} (m : model)
  : option (model * list progressMsg * Msg) :=
  r <- frameLoop m (Image (GIF m)) 0 (newCanvas (GIF m)) ;;
  Some (set_Frames m (fst r), snd r, processingCompleteMsg).

(** The canvas when the loop has gone through the frames [0 .. n-1]. *)
Fixpoint canvasAfter (g : Gif.GIF) (n : nat) : option Canvas :=
  match n with
  | O => Some (newCanvas g)
  | S i =>
      c <- canvasAfter g i ;;
      srcImg <- nth_error (Image g) i ;;
      c <- savePrevious g i c ;;
      c <- applyDisposal g i c ;;
      Some (composite c srcImg)
  end.

(** The canvas frame [i] is composited on: the state of [currentImage]
    after the first two statements of pass [i]. *)
Definition baseFor (g : Gif.GIF) (i : nat) : option RGBA :=
  c <- canvasAfter g i ;;
  _ <- nth_error (Image g) i ;;
  c <- savePrevious g i c ;;
  c <- applyDisposal g i c ;;
  Some (currentImage c).

(** The canvas right after frame [i] was composited. *)
Definition drawnAfter (g : Gif.GIF) (i : nat) : option RGBA :=
  c <- canvasAfter g (S i) ;; Some (currentImage c).

(* --------------------------------------------------------------------- *)
(** *** Message handlers *)

(** [Init]. *)
Definition Init (m : model) : model * option Cmd :=
  (set_Loading m true, Some ProcessGIFCmd).

(** [nextFrame]: the tick for the delay of the current frame, in
    hundredths of a second; [time.Duration(delay)*10*time.Millisecond]. *)
Definition nextFrame (m : model) : option Cmd :=
  if (CurrentFrame m <? 0) || (len (Delay (GIF m)) <=? CurrentFrame m)
  then None
  else
    let delay := nth (Z.to_nat (CurrentFrame m)) (Delay (GIF m)) 0 in
    let delay := if delay =? 0 then 10 else delay in
    Some (TickCmd (int (int (delay * 10) * 1000000))).

Definition handleKeyPress (m : model) (key : string) : model * option Cmd :=
  if (key =? "space")%string then
    let m := set_Paused m (negb (Paused m)) in
    if negb (Paused m) && Ready m then (m, nextFrame m) else (m, None)
  else if (key =? "?")%string then
    (set_ShowHelp m (negb (ShowHelp m)), None)
  else if (key =? "n")%string || (key =? "right")%string then
    if 0 <? len (Frames m) then
      let m := set_Paused m true in
      (set_CurrentFrame m
         (Z.rem (int (CurrentFrame m + 1)) (len (Frames m))), None)
    else (m, None)
  else if (key =? "p")%string || (key =? "left")%string then
    if 0 <? len (Frames m) then
      let m := set_Paused m true in
      (set_CurrentFrame m
         (Z.rem (int (int (CurrentFrame m - 1) + len (Frames m)))
                (len (Frames m))), None)
    else (m, None)
  else if (key =? "q")%string || (key =? "ctrl+c")%string then
    (m, Some QuitCmd)
  else (m, None).

Definition handleFrameAdvance (m : model) : model * option Cmd :=
  if negb (Paused m) && Ready m && (0 <? len (Frames m)) then
    let m :=
      set_CurrentFrame m (Z.rem (int (CurrentFrame m + 1)) (len (Frames m))) in
    (m, nextFrame m)
  else (m, None).

Definition handleProgress (m : model) (msg : progressMsg)
  : model * option Cmd :=
  if Loading m && negb (Ready m) then
    (set_LoadingView m (partialFrame msg) (rowsComplete msg) (totalRows msg),
     None)
  else (m, None).

Definition handleProcessingComplete (m : model) : model * option Cmd :=
  let m := set_Ready m true in
  let m := set_Loading m false in
  let m := set_CurrentFrame m 0 in
  if negb (Paused m) then (m, nextFrame m) else (m, None).

Definition handleWindowResize (m : model) (width height : Z)
  : model * option Cmd :=
  let '(oldWidth, oldHeight) := (Width m, Height m) in
  let m := set_Size m width height in
  if (oldWidth =? 0) || (oldHeight =? 0) then (m, None)
  else if (oldWidth =? Width m) && (oldHeight =? Height m) then (m, None)
  else if Loading m then (m, None)
  else
    let m := set_Ready m false in
    let m := set_Loading m true in
    let m := set_LoadingView m EmptyString 0 0 in
    let m := set_Frames m [] in
    (m, Some ProcessGIFCmd).

Definition Update (m : model) (msg : Msg) : model * option Cmd :=
  match msg with
  | KeyMsg key => handleKeyPress m key
  | frameMsg => handleFrameAdvance m
  | progress p => handleProgress m p
  | processingCompleteMsg => handleProcessingComplete m
  | WindowSizeMsg width height => handleWindowResize m width height
  end.

(* --------------------------------------------------------------------- *)
(** *** The running program

    The event loop hands one message at a time to [Update]; a
    [ProcessGIFCmd] it gets back runs [ProcessGIF] on a worker.  The worker
    holds the pointer to the model: it stores the frames in [m.Frames]
    itself and then returns [processingCompleteMsg], which reaches [Update]
    later.  [workers] counts the pipelines that are running and
    [completed] the completion messages not handled yet. *)

Record Program := mkProgram
  { mdl : model; workers : nat; completed : nat }.

(** A command started by the event loop. *)
Definition spawn (c : option Cmd) : nat :=
  match c with
  | Some ProcessGIFCmd => 1%nat
  | _ => 0%nat
  end.

(** The program [Run] builds, after [Init]. *)
Definition start (g : Gif.GIF) : Program :=
  let m :=
    mkModel g [] 0 0 0 false false false false EmptyString 0 0 in
  let (m, c) := Init m in
  mkProgram m (spawn c) 0.

(** The event loop handles one message: the model changes and the command
    that comes back is started. *)
Definition deliver (p : Program) (msg : Msg) : Program :=
  let r := Update (mdl p) msg in
  mkProgram (fst r) (workers p + spawn (snd r)) (completed p).

(** Messages that come from the terminal and from timers.  A tick can
    arrive at any time: timers are not cancelled. *)
Definition fromOutside (msg : Msg) : bool :=
  match msg with
  | KeyMsg _ | frameMsg | WindowSizeMsg _ _ => true
  | progress _ | processingCompleteMsg => false
  end.

Inductive step `{Externals} : Program -> Program -> Prop :=
| step_event : forall p msg,
    fromOutside msg = true ->
    step p (deliver p msg)
| step_progress : forall p m0 img msg,
    In msg (snd (renderImageHalfBlock m0 img true)) ->
    step p (deliver p (progress msg))
| step_worker_done : forall p width height m' sent,
    (0 < workers p)%nat ->
    ProcessGIF (set_Size (mdl p) width height)
      = Some (m', sent, processingCompleteMsg) ->
    step p (mkProgram (set_Frames (mdl p) (Frames m'))
                      (workers p - 1) (S (completed p)))
| step_complete : forall p,
    (0 < completed p)%nat ->
    step p (deliver (mkProgram (mdl p) (workers p) (completed p - 1))
                    processingCompleteMsg).

Inductive reachable `{Externals} (g : Gif.GIF) : Program -> Prop :=
| reach_start : reachable g (start g)
| reach_step : forall p q, reachable g p -> step p q -> reachable g q.

(** The invariant of the data model. *)
Definition invariant (m : model) : Prop :=
  (Ready m = true -> List.length (Frames m) = List.length (Image (GIF m))) /\
  (Frames m <> [] -> 0 <= CurrentFrame m < len (Frames m)) /\
  (Loading m = true -> LoadingRows m <= TotalRows m).

(* --------------------------------------------------------------------- *)
(** *** Loading *)

Definition isURL (s : string) : bool :=
  String.prefix "http://" s || String.prefix "https://" s.

(** [fmt.Errorf(prefix + ": %w", err)]. *)
Definition wrapError (prefix : string) (e : string) : error :=
  Some (prefix ++ ": " ++ e)%string.

Definition decodeOrFail `{World} (reader : string) : option Gif.GIF * error :=
  match gif_DecodeAll reader with
  | Err e => (None, wrapError "failed to decode GIF" e)
  | Ok gifImage => (Some gifImage, None)
  end.

Definition loadGIF `{World} (source : string) : option Gif.GIF * error :=
  if isURL source then
    match http_Get source with
    | Err e => (None, wrapError "failed to download" e)
    | Ok resp =>
        if negb (StatusCode resp =? StatusOK) then
          (None, Some ("HTTP error: " ++ Status resp)%string)
        else decodeOrFail (Body resp)
    end
  else
    match os_Open source with
    | Err e => (None, wrapError "failed to open file" e)
    | Ok file => decodeOrFail file
    end.

(** [Run] up to the point where the program is started: the error it
    returns, or the program after [Init] ([None] for a nil GIF, which
    [loadGIF] never returns without an error). *)
Definition Run `{World} (source : string) : error + option Program :=
  match loadGIF source with
  | (_, Some e) => inl (wrapError "loading GIF" e)
  | (gifImage, None) => inr (option_map start gifImage)
  end.

(* --------------------------------------------------------------------- *)
(** *** View rendering *)

(** [%d] of an int. *)
Definition decimal (z : Z) : string :=
  DecimalString.NilZero.string_of_int (Z.to_int z).

(** U+25B6 and U+23F8, the icons of the status line. *)
Definition playIcon : string := utf8 [226; 150; 182]%nat.
Definition pauseIcon : string := utf8 [226; 143; 184]%nat.

(** What [View] hands to the layout library: the texts of the layers it
    stacks.  The layout itself (centering in [Width] x [Height], the
    z-order of the layers, the border of the help panel) is the
    library's. *)
Inductive Content :=
| LoadingView (frame : string) (status : string)
| InitialLoading (text : string)
| PlaybackView (frame : string) (status : string) (help : bool).

Definition renderLoadingView (m : model) : Content :=
  let status :=
    (" Loading... " ++ decimal (LoadingRows m) ++ "/"
       ++ decimal (TotalRows m) ++ " rows ")%string in
  LoadingView (LoadingFrame m) status.

Definition renderInitialLoading (m : model) : Content :=
  InitialLoading "Loading GIF...".

Definition renderStatus (m : model) : string :=
  let icon := if Paused m then pauseIcon else playIcon in
  (" " ++ icon ++ " " ++ decimal (int (CurrentFrame m + 1)) ++ "/"
       ++ decimal (len (Frames m)) ++ " ")%string.

(** [renderPlaybackView] reads [m.Frames[m.CurrentFrame]]: an index
    outside the slice is a panic, [None] here. *)
Definition renderPlaybackView (m : model) : option Content :=
  if (CurrentFrame m <? 0) || (len (Frames m) <=? CurrentFrame m) then None
  else
    frame <- nth_error (Frames m) (Z.to_nat (CurrentFrame m)) ;;
    Some (PlaybackView frame (renderStatus m) (ShowHelp m)).

Definition View (m : model) : option Content :=
  if Loading m && negb (LoadingFrame m =? EmptyString)%string then
    Some (renderLoadingView m)
  else if negb (Ready m) || (len (Frames m) =? 0) then
    Some (renderInitialLoading m)
  else renderPlaybackView m.

End Core.


(* ===================================================================== *)
(** ** Package gif (internal/gif): the processor *)

Module Internal.

Record ProgressUpdate := mkProgressUpdate
  { PartialFrame : string; RowsComplete : Z; TotalRows : Z }.

Record Processor := NewProcessor
  { gif : Gif.GIF; width : Z; height : Z }.

Definition isURL (s : string) : bool :=
  String.prefix "http://" s || String.prefix "https://" s.

(** [LoadFromSource].  On a status other than 200 the function returns the
    variable [err] of [resp, err := http.Get(source)], which is known to
    be nil on that path. *)
Definition LoadFromSource `{World} (source : string)
  : option Gif.GIF * error :=
  if isURL source then
    let r := http_Get source in
    let err := errorOf r in
    match r with
    | Err _ => (None, err)
    | Ok resp =>
        if negb (StatusCode resp =? StatusOK) then (None, err)
        else
          let d := gif_DecodeAll (Body resp) in
          match d with
          | Err _ => (None, errorOf d)
          | Ok gifImage => (Some gifImage, None)
          end
    end
  else
    let f := os_Open source in
    match f with
    | Err _ => (None, errorOf f)
    | Ok file =>
        let d := gif_DecodeAll file in
        match d with
        | Err _ => (None, errorOf d)
        | Ok gifImage => (Some gifImage, None)
        end
    end.

(** [renderHalfBlockChar] of this package. *)
Definition renderHalfBlockChar `{Externals} (topColor bottomColor : Color)
  : string :=
  if (cA topColor =? 0) && (cA bottomColor =? 0) then blank2
  else if cA topColor =? 0 then
    lipgloss_Render
      (Some (hexColor (cR bottomColor) (cG bottomColor) (cB bottomColor)))
      None lowerHalf2
  else if cA bottomColor =? 0 then
    lipgloss_Render
      (Some (hexColor (cR topColor) (cG topColor) (cB topColor)))
      None upperHalf2
  else
    lipgloss_Render
      (Some (hexColor (cR topColor) (cG topColor) (cB topColor)))
      (Some (hexColor (cR bottomColor) (cG bottomColor) (cB bottomColor)))
      upperHalf2.

Definition calculateImageSize (p : Processor) (img : Img.Image) : Z * Z :=
  let maxWidth := Z.quot (width p) 2 in
  let ratio :=
    Float64.div (Float64.ofInt (Dy (Bounds img)))
                (Float64.ofInt (Dx (Bounds img))) in
  let targetHeight :=
    Float64.toInt
      (Float64.mul (Float64.mul (Float64.ofInt maxWidth) ratio)
                   (Float64.ofInt 2)) in
  if int (height p * 2) <? targetHeight then
    let targetHeight := int (height p * 2) in
    let maxWidth :=
      Float64.toInt
        (Float64.div (Float64.div (Float64.ofInt targetHeight) ratio)
                     (Float64.ofInt 2)) in
    (maxWidth, targetHeight)
  else (maxWidth, targetHeight).

(** The inner loop over the columns of the row that starts at [y]. *)
Definition renderRow `{Externals} (resized : Img.Image) (y : Z) : string :=
  let bounds := Bounds resized in
  fold_left
    (fun sb x =>
       let topColor := At resized x y in
       let bottomColor :=
         if y + 1 <? Y (Max bounds) then At resized x (y + 1)
         else Transparent in
       (sb ++ renderHalfBlockChar topColor bottomColor)%string)
    (xRange (X (Min bounds)) (X (Max bounds))) EmptyString.

(** The row loop of [renderHalfBlock], with the same convention for
    [fuel] as in the core package. *)
Fixpoint rowLoop `{Externals} (resized : Img.Image) (totalRows : Z)
         (progressChan : bool) (fuel : nat) (y : Z) (sb : string)
         (currentRow : Z) : string * list ProgressUpdate :=
  match fuel with
  | O => (sb, [])
  | S fuel' =>
      if y <? Y (Max (Bounds resized)) then
        let sb := (sb ++ renderRow resized y ++ newline)%string in
        let currentRow := currentRow + 1 in
        let sent :=
          if progressChan &&
             ((Z.rem currentRow 2 =? 0) || (Y (Max (Bounds resized)) <=? y + 2))
          then [mkProgressUpdate sb currentRow totalRows]
          else [] in
        let (text, later) :=
          rowLoop resized totalRows progressChan fuel' (y + 2) sb currentRow in
        (text, sent ++ later)
      else (sb, [])
  end.

Definition renderHalfBlock `{Externals} (p : Processor) (img : Img.Image)
           (progressChan : bool) : string * list ProgressUpdate :=
  let (w, h) := calculateImageSize p img in
  let resized := resize_Lanczos3 (uint w) (uint h) img in
  let bounds := Bounds resized in
  let totalRows := Z.quot (Y (Max bounds) - Y (Min bounds) + 1) 2 in
  rowLoop resized totalRows progressChan
          (Z.to_nat (Y (Max bounds) - Y (Min bounds)))
          (Y (Min bounds)) EmptyString 0.

(** [GetGIFDimensions]. *)
Definition GetGIFDimensions (g : Gif.GIF) : Z * Z :=
  let step (acc : Z * Z * Z * Z) (img : Paletted) :=
    let '(lowestX, lowestY, highestX, highestY) := acc in
    (if X (Min (PRect img)) <? lowestX then X (Min (PRect img)) else lowestX,
     if Y (Min (PRect img)) <? lowestY then Y (Min (PRect img)) else lowestY,
     if highestX <? X (Max (PRect img)) then X (Max (PRect img)) else highestX,
     if highestY <? Y (Max (PRect img)) then Y (Max (PRect img)) else highestY)
  in
  let '(lowestX, lowestY, highestX, highestY) :=
    fold_left step (Image g) (0, 0, 0, 0) in
  (int (highestX - lowestX), int (highestY - lowestY)).

(** The loop of [ProcessAllFrames]; the disposal of the frame before is
    handled in the loop body itself. *)
Fixpoint frameLoop `{Externals} (p : Processor) (progressChan : bool)
         (imgs : list Paletted) (i : nat) (currentImage previousImage : RGBA)
  : option (list string * list ProgressUpdate) :=
  match imgs with
  | [] => Some ([], [])
  | srcImg :: rest =>
      previousImage <-
        match i with
        | O => Some previousImage
        | S j =>
            d <- nth_error (Disposal (gif p)) j ;;
            Some (if d =? DisposalPrevious
                  then Draw previousImage (RGBARect previousImage)
                            (SrcRGBA currentImage) ZP Src
                  else previousImage)
        end ;;
      currentImage <-
        match i with
        | O => Some currentImage
        | S j =>
            d <- nth_error (Disposal (gif p)) j ;;
            if d =? DisposalBackground then
              prevImg <- nth_error (Image (gif p)) j ;;
              Some (Draw currentImage (PRect prevImg)
                         (SrcUniform Transparent) ZP Src)
            else if d =? DisposalPrevious then
              Some (Draw currentImage (RGBARect currentImage)
                         (SrcRGBA previousImage) ZP Src)
            else Some currentImage
        end ;;
      let currentImage :=
        Draw currentImage (RGBARect currentImage) (SrcPaletted srcImg) ZP Over in
      let imgCopy := NewRGBA (RGBARect currentImage) in
      let imgCopy := Draw imgCopy (RGBARect imgCopy) (SrcRGBA currentImage) ZP Src in
      let (frame, sent) :=
        if Nat.eqb i 0 && progressChan
        then renderHalfBlock p (RGBA_Image imgCopy) true
        else renderHalfBlock p (RGBA_Image imgCopy) false in
      r <- frameLoop p progressChan rest (S i) currentImage previousImage ;;
      Some (frame :: fst r, (sent ++ snd r)%list)
  end.

Definition ProcessAllFrames `{Externals} (p : Processor) (progressChan : bool)
  : option (list string * list ProgressUpdate) :=
  let (imgWidth, imgHeight) := GetGIFDimensions (gif p) in
  frameLoop p progressChan (Image (gif p)) 0
            (NewRGBA (Rect 0 0 imgWidth imgHeight))
            (NewRGBA (Rect 0 0 imgWidth imgHeight)).

End Internal.


(* ===================================================================== *)
(** ** The specification's wording, for comparison with the code *)

Module Spec.

(** Sizing policy as the specification words it: the available pixel
    width is the terminal column count; the target height is
    columns x (sourceHeight / sourceWidth) x 2; when that exceeds
    rows x 2 the height is clamped and the width recomputed as
    height / aspectRatio / 2. *)
Definition claimedImageSize (terminalColumns terminalRows : Z)
           (sourceWidth sourceHeight : Z) : Z * Z :=
  let aspectRatio :=
    Float64.div (Float64.ofInt sourceHeight) (Float64.ofInt sourceWidth) in
  let targetHeight :=
    Float64.toInt
      (Float64.mul (Float64.mul (Float64.ofInt terminalColumns) aspectRatio)
                   (Float64.ofInt 2)) in
  if terminalRows * 2 <? targetHeight then
    (Float64.toInt
       (Float64.div (Float64.div (Float64.ofInt (terminalRows * 2)) aspectRatio)
                    (Float64.ofInt 2)),
     terminalRows * 2)
  else (terminalColumns, targetHeight).

(** Least and greatest element of a non-empty list. *)
Definition minimum (z : Z) (zs : list Z) : Z := fold_right Z.min z zs.
Definition maximum (z : Z) (zs : list Z) : Z := fold_right Z.max z zs.

(** The bounding box of the frames as the specification words it: the
    minimum of all frame minima and the maximum of all frame maxima; its
    width and height.  [None] for an empty sequence. *)
Definition boundingBoxSize (frames : list Paletted) : option (Z * Z) :=
  match frames with
  | [] => None
  | f :: fs =>
      let minX := minimum (X (Min (PRect f))) (map (fun g => X (Min (PRect g))) fs) in
      let minY := minimum (Y (Min (PRect f))) (map (fun g => Y (Min (PRect g))) fs) in
      let maxX := maximum (X (Max (PRect f))) (map (fun g => X (Max (PRect g))) fs) in
      let maxY := maximum (Y (Max (PRect f))) (map (fun g => Y (Max (PRect g))) fs) in
      Some (maxX - minX, maxY - minY)
  end.

(** The same with the origin of the canvas taken into the box: what the
    accumulators of [getGifDimensions], which start at zero, compute. *)
Definition lowest (zs : list Z) : Z := fold_right Z.min 0 zs.
Definition highest (zs : list Z) : Z := fold_right Z.max 0 zs.

End Spec.

(* ===================================================================== *)
(** ** Sample data *)

Module Sample.

(** Collaborators for running the definitions: the resampler leaves the
    image as it is, the styling writes the colors in front of the text. *)
Definition plainExternals : Externals :=
  mkExternals
    (fun _ _ img => img)
    (fun fg bg s =>
       (match fg with Some c => "fg" ++ c | None => EmptyString end ++
        match bg with Some c => "bg" ++ c | None => EmptyString end ++ s)%string).

Definition red : RGBA8 := mkRGBA8 255 0 0 255.
Definition green : RGBA8 := mkRGBA8 0 255 0 255.
Definition palette : list RGBA8 := [zeroRGBA8; red; green].

(** A canvas of one pixel: frame 0 paints it red and asks for
    "restore to previous"; frame 1 is fully transparent. *)
Definition redDot : Paletted := mkPaletted [1] (Rect 0 0 1 1) palette.
Definition clearDot : Paletted := mkPaletted [0] (Rect 0 0 1 1) palette.
Definition restorePreviousGIF : Gif.GIF :=
  mkGIF [redDot; clearDot] [10; 10] [DisposalPrevious; DisposalNone].

(** A 2x2 canvas filled red by frame 0; frame 1 paints the lower right
    pixel green and asks for "restore to background"; frame 2 is a
    transparent dot. *)
Definition redSquare : Paletted :=
  mkPaletted [1; 1; 1; 1] (Rect 0 0 2 2) palette.
Definition greenCorner : Paletted := mkPaletted [2] (Rect 1 1 2 2) palette.
Definition restoreBackgroundGIF : Gif.GIF :=
  mkGIF [redSquare; greenCorner; clearDot] [30; 30; 30]
        [DisposalNone; DisposalBackground; DisposalPrevious].

(** One frame placed away from the origin. *)
Definition offsetFrame : Paletted := mkPaletted [] (Rect 16 16 48 48) palette.
Definition offsetGIF : Gif.GIF := mkGIF [offsetFrame] [10] [DisposalNone].

(** A viewer of 80 x 40 cells that is processing its GIF. *)
Definition loadingModel : Core.model :=
  Core.mkModel restoreBackgroundGIF [] 0 80 40 false false false true
               EmptyString 0 0.

(** The same viewer once the frames are there, and when it is paused. *)
Definition readyModel : Core.model :=
  Core.mkModel restoreBackgroundGIF ["a"; "b"; "c"]%string 1 80 40 false false
               true false EmptyString 0 0.
Definition pausedModel : Core.model := Core.set_Paused readyModel true.

(** A terminal of 40 x 50 cells and a source image of 200 x 100 pixels
    (the case "image wider than terminal" of the test suite). *)
Definition narrowModel : Core.model :=
  Core.mkModel offsetGIF [] 0 40 50 false false false false EmptyString 0 0.
Definition wideImage : Img.Image :=
  mkImage (Rect 0 0 200 100) (fun _ _ => Transparent).

(** The worker of a program finishes: it stores the frames it built and
    sends the completion message. *)
Definition workerDone (p : Core.Program) : Core.Program :=
  match @Core.ProcessGIF plainExternals (Core.mdl p) with
  | Some (m', _, _) =>
      Core.mkProgram (Core.set_Frames (Core.mdl p) (Core.Frames m'))
                     (Core.workers p - 1) (S (Core.completed p))
  | None => p
  end.

(** The event loop takes the completion message. *)
Definition acknowledge (p : Core.Program) : Core.Program :=
  Core.deliver
    (Core.mkProgram (Core.mdl p) (Core.workers p) (Core.completed p - 1))
    Core.processingCompleteMsg.

(** A run of the viewer: it starts on the three-frame GIF, learns that the
    terminal has 80 x 40 cells, is resized to 100 x 50 while it loads,
    gets the frames from its worker, takes the completion message, and
    the user steps one frame back. *)
Definition started : Core.Program := Core.start restoreBackgroundGIF.
Definition sized : Core.Program :=
  Core.deliver started (Core.WindowSizeMsg 80 40).
Definition resized : Core.Program :=
  Core.deliver sized (Core.WindowSizeMsg 100 50).
Definition processed : Core.Program := workerDone resized.
Definition ready : Core.Program := acknowledge processed.
Definition steppedBack : Core.Program :=
  Core.deliver ready (Core.KeyMsg "p").

(** A server that answers every request with 404, and a disk without
    files. *)
Definition notFound : World :=
  mkWorld
    (fun _ => Ok (mkResponse 404 "404 Not Found" "not found"))
    (fun _ => Err "no such file or directory")
    (fun _ => Err "gif: can't recognize format").

(** A machine without network whose disk holds one file, which decodes
    to the three-frame GIF. *)
Definition offline : World :=
  mkWorld
    (fun _ => Err "dial tcp: no route to host")
    (fun path => if (path =? "anim.gif")%string then Ok "GIF89a"%string
                 else Err "no such file or directory")
    (fun bytes => if (bytes =? "GIF89a")%string then Ok restoreBackgroundGIF
                  else Err "gif: can't recognize format").

(** The same disk behind a network that answers. *)
Definition online : World :=
  mkWorld
    (fun _ => Ok (mkResponse 200 "200 OK" "GIF89a"))
    (fun path => if (path =? "anim.gif")%string then Ok "GIF89a"%string
                 else Err "no such file or directory")
    (fun bytes => if (bytes =? "GIF89a")%string then Ok restoreBackgroundGIF
                  else Err "gif: can't recognize format").

(** A resampler that yields an opaque red image of 2 x 3 pixels, whatever
    it is given: an odd number of pixel rows. *)
Definition threeRows : Externals :=
  mkExternals
    (fun _ _ _ => mkImage (Rect 0 0 2 3) (fun _ _ => RGBA8_RGBA red))
    (fun fg bg s =>
       (match fg with Some c => "fg" ++ c | None => EmptyString end ++
        match bg with Some c => "bg" ++ c | None => EmptyString end ++ s)%string).

End Sample.


(* ===================================================================== *)
(** ** Conditions used in the statements *)

Module Cond.

(** A pixel buffer as [image.NewRGBA] allocates it: one pixel for every
    point of its bounds. *)
Definition bufferOK (p : RGBA) : Prop :=
  0 <= Dx (RGBARect p) /\ 0 <= Dy (RGBARect p) /\
  List.length (Pix p) = Z.to_nat (Dx (RGBARect p) * Dy (RGBARect p)).

(** The two buffers of the frame loop, both with the bounds [r]. *)
Definition canvasOK (r : Rectangle) (c : Core.Canvas) : Prop :=
  bufferOK (Core.currentImage c) /\ bufferOK (Core.previousImage c) /\
  RGBARect (Core.currentImage c) = r /\ RGBARect (Core.previousImage c) = r.


(** The bounds of the canvas [ProcessGIF] allocates. *)
Definition canvasRect (g : Gif.GIF) : Rectangle :=
  Rect 0 0 (fst (Core.getGifDimensions g)) (snd (Core.getGifDimensions g)).

(** The canvas size has not overflowed: the canvas is the rectangle
    (0,0)-(width,height). *)
Definition canvasSizeOK (g : Gif.GIF) : Prop :=
  0 <= fst (Core.getGifDimensions g) /\ 0 <= snd (Core.getGifDimensions g).

(** The number of frames is far inside the range of [int], as the length
    of every slice is. *)
Definition frameCountOK (g : Gif.GIF) : Prop :=
  Core.len (Image g) < 2 ^ 62.

(** What holds of a running program besides the invariant of the data
    model: at most one pipeline is running or waiting to be acknowledged,
    and that exactly while the viewer is loading; the frames are those of
    the GIF once they are stored; the current frame is an index of the
    GIF. *)
Definition programOK (g : Gif.GIF) (p : Core.Program) : Prop :=
  let m := Core.mdl p in
  Core.GIF m = g /\
  Core.invariant m /\
  (Core.workers p + Core.completed p <= 1)%nat /\
  (Core.Loading m = true <-> (Core.workers p + Core.completed p = 1)%nat) /\
  Core.Ready m = negb (Core.Loading m) /\
  ((0 < Core.completed p)%nat \/ Core.Ready m = true ->
   List.length (Core.Frames m) = List.length (Image g)) /\
  (Core.Frames m = [] \/
   List.length (Core.Frames m) = List.length (Image g)) /\
  (Core.CurrentFrame m = 0 \/
   0 <= Core.CurrentFrame m < Core.len (Image g)).

(** Every channel of every pixel of a buffer is a byte. *)
Definition byteOK (c : RGBA8) : Prop :=
  0 <= R8 c < 256 /\ 0 <= G8 c < 256 /\ 0 <= B8 c < 256 /\ 0 <= A8 c < 256.

Definition bytesOK (p : RGBA) : Prop := Forall byteOK (Pix p).

(** The frames of a GIF as the decoder delivers them: the coordinates are
    16-bit offsets and sizes, so every frame lies between (0,0) and
    (131070,131070). *)
Definition framesInRange (g : Gif.GIF) : Prop :=
  Forall (fun f => 0 <= X (Min (PRect f)) /\ 0 <= Y (Min (PRect f)) /\
                   X (Max (PRect f)) <= 131070 /\ Y (Max (PRect f)) <= 131070)
         (Image g).

End Cond.
Import Cond.

(* ===================================================================== *)
(** * Properties *)

Import Core.

(* --------------------------------------------------------------------- *)
(** ** Glyph selection *)



(** The renderer of the processor package obeys the same table. *)
Lemma internal_renderHalfBlockChar_eq `{Externals} (top bottom : Color) :
  Internal.renderHalfBlockChar top bottom = renderHalfBlockChar top bottom.
Proof. reflexivity. Qed.

(* --------------------------------------------------------------------- *)
(** ** Timed frame advance *)

(** C9.  A frame-advance message handled while the viewer is paused or not
    ready changes nothing and schedules nothing. *)
Theorem handleFrameAdvance_stale_noop (m : model) :
  Paused m = true \/ Ready m = false ->
  handleFrameAdvance m = (m, None).
Proof.
  intros [Hp | Hr]; unfold handleFrameAdvance.
  - rewrite Hp. reflexivity.
  - rewrite Hr. rewrite andb_false_r. reflexivity.
Qed.

Lemma handleFrameAdvance_stale_noop_witness :
  Paused Sample.pausedModel = true /\
  handleFrameAdvance Sample.pausedModel = (Sample.pausedModel, None).
Proof.
  split; [reflexivity |].
  apply (handleFrameAdvance_stale_noop Sample.pausedModel).
  left; reflexivity.
Defined.

(** While playing, the same message does move the frame and schedules the
    next tick: frame 1 of 3 becomes frame 2, after 300 ms. *)
Example handleFrameAdvance_playing :
  handleFrameAdvance Sample.readyModel
  = (set_CurrentFrame Sample.readyModel 2, Some (TickCmd 300000000)).
Proof. reflexivity. Qed.

(* --------------------------------------------------------------------- *)
(** ** Loading from a URL *)

(** The loader of the core package reports every status other than 200
    and every decode failure as an error, and returns no GIF then. *)
Lemma loadGIF_http_status `{World} (source : string) (resp : Response) :
  isURL source = true ->
  http_Get source = Ok resp ->
  StatusCode resp <> StatusOK ->
  loadGIF source = (None, Some ("HTTP error: " ++ Status resp)%string).
Proof.
  intros Hu Hg Hs. unfold loadGIF. rewrite Hu, Hg.
  apply Z.eqb_neq in Hs. rewrite Hs. reflexivity.
Qed.

Lemma loadGIF_decode_failure `{World} (source : string) (resp : Response)
      (e : string) :
  isURL source = true ->
  http_Get source = Ok resp ->
  StatusCode resp = StatusOK ->
  gif_DecodeAll (Body resp) = Err e ->
  loadGIF source = (None, wrapError "failed to decode GIF" e).
Proof.
  intros Hu Hg Hs Hd. unfold loadGIF, decodeOrFail.
  rewrite Hu, Hg, Hs, Z.eqb_refl, Hd. reflexivity.
Qed.

(** [Run] hands such an error to its caller and starts no program. *)
Lemma Run_error_before_start `{World} (source : string) (e : string) :
  snd (loadGIF source) = Some e ->
  Run source = inl (wrapError "loading GIF" e).
Proof.
  intros He. unfold Run. destruct (loadGIF source) as [g err].
  simpl in He. subst err. reflexivity.
Qed.

(** The loader of the processor package returns no error at all when the
    status is not 200: the error variable it returns is nil there. *)
Lemma LoadFromSource_http_status `{World} (source : string) (resp : Response) :
  Internal.isURL source = true ->
  http_Get source = Ok resp ->
  StatusCode resp <> StatusOK ->
  Internal.LoadFromSource source = (None, None).
Proof.
  intros Hu Hg Hs. unfold Internal.LoadFromSource. rewrite Hu, Hg.
  apply Z.eqb_neq in Hs. rewrite Hs. reflexivity.
Qed.

(** C5.  [LoadFromSource] on a URL whose server answers 404: neither a GIF
    nor an error comes back, while [loadGIF] reports "HTTP error". *)
Theorem LoadFromSource_not_found_no_error :
  @Internal.LoadFromSource Sample.notFound "http://example.com/a.gif"
    = (None, None) /\
  @loadGIF Sample.notFound "http://example.com/a.gif"
    = (None, Some "HTTP error: 404 Not Found"%string).
Proof. split; reflexivity. Qed.

(* --------------------------------------------------------------------- *)
(** ** Resize while loading *)

(** A resize handled while the viewer is loading records the new size
    and starts nothing. *)
Lemma handleWindowResize_while_loading (m : model) (width height : Z) :
  Loading m = true ->
  handleWindowResize m width height = (set_Size m width height, None).
Proof.
  intros Hl. unfold handleWindowResize.
  destruct ((Width m =? 0) || (Height m =? 0)); [reflexivity |].
  destruct ((Width m =? Width (set_Size m width height)) &&
            (Height m =? Height (set_Size m width height))); [reflexivity |].
  simpl. rewrite Hl. reflexivity.
Qed.

(** The completion handler never starts the pipeline again, whatever the
    size recorded meanwhile. *)
Lemma handleProcessingComplete_starts_nothing (m : model) :
  snd (handleProcessingComplete m) <> Some ProcessGIFCmd.
Proof.
  unfold handleProcessingComplete, nextFrame. simpl.
  destruct (Paused m); simpl; [discriminate |].
  destruct (len (Delay (GIF m)) <=? 0); simpl; discriminate.
Qed.

(** The sample worker's hand-over is a step of the program. *)
Lemma workerDone_step (p : Program) :
  (0 < workers p)%nat ->
  @ProcessGIF Sample.plainExternals (mdl p) <> None ->
  @step Sample.plainExternals p (Sample.workerDone p).
Proof.
  intros Hw Hp. unfold Sample.workerDone.
  destruct (@ProcessGIF Sample.plainExternals (mdl p))
    as [[[m' sent] msg] |] eqn:E; [| congruence].
  assert (Hm : msg = processingCompleteMsg).
  { unfold ProcessGIF in E.
    destruct (frameLoop _ _ _ _); simpl in E; [| discriminate].
    injection E as _ _ <-. reflexivity. }
  subst msg.
  apply (step_worker_done p (Width (mdl p)) (Height (mdl p)) m' sent Hw).
  rewrite <- E. f_equal. destruct (mdl p). reflexivity.
Qed.

(** The sample run is a run of the program. *)
Lemma sample_run_reachable :
  @reachable Sample.plainExternals Sample.restoreBackgroundGIF Sample.ready /\
  @step Sample.plainExternals Sample.sized Sample.resized /\
  @step Sample.plainExternals Sample.processed Sample.ready /\
  @step Sample.plainExternals Sample.ready Sample.steppedBack.
Proof.
  assert (Hsized : @reachable Sample.plainExternals Sample.restoreBackgroundGIF
                              Sample.sized).
  { apply (@reach_step Sample.plainExternals _ Sample.started).
    - apply reach_start.
    - apply (step_event Sample.started (WindowSizeMsg 80 40)). reflexivity. }
  assert (Hres : @step Sample.plainExternals Sample.sized Sample.resized).
  { apply (step_event Sample.sized (WindowSizeMsg 100 50)). reflexivity. }
  assert (Hproc : @step Sample.plainExternals Sample.resized Sample.processed).
  { apply workerDone_step; [vm_compute; lia | vm_compute; discriminate]. }
  assert (Hack : @step Sample.plainExternals Sample.processed Sample.ready).
  { apply (step_complete Sample.processed). vm_compute. lia. }
  split; [| split; [exact Hres | split; [exact Hack |]]].
  - apply (@reach_step Sample.plainExternals _ Sample.processed);
      [| exact Hack].
    apply (@reach_step Sample.plainExternals _ Sample.resized);
      [| exact Hproc].
    apply (@reach_step Sample.plainExternals _ Sample.sized);
      [exact Hsized | exact Hres].
  - apply (step_event Sample.ready (KeyMsg "p")). reflexivity.
Qed.

(** C2.  The viewer of 80 x 40 cells is resized to 100 x 50 while it loads
    and the processing then completes.  The resize starts no pipeline and
    records the new size; the completion starts none either: the handler
    returns the tick of the first frame (300 ms), the viewer is ready and
    no pipeline runs, so the frames stay those of the run that was in
    flight. *)
Theorem resize_while_loading_never_reprocessed :
  (Loading (mdl Sample.sized), workers Sample.sized) = (true, 1%nat) /\
  Update (mdl Sample.sized) (WindowSizeMsg 100 50)
    = (mdl Sample.resized, None) /\
  (Width (mdl Sample.resized), Height (mdl Sample.resized)) = (100, 50) /\
  (workers Sample.resized, completed Sample.resized) = (1%nat, 0%nat) /\
  (workers Sample.processed, completed Sample.processed) = (0%nat, 1%nat) /\
  Update (mdl Sample.processed) processingCompleteMsg
    = (mdl Sample.ready, Some (TickCmd 300000000)) /\
  (Ready (mdl Sample.ready), Loading (mdl Sample.ready)) = (true, false) /\
  (workers Sample.ready, completed Sample.ready) = (0%nat, 0%nat).
Proof.
  split; [vm_compute; reflexivity |].
  split; [vm_compute; reflexivity |].
  split; [vm_compute; reflexivity |].
  split; [vm_compute; reflexivity |].
  split; [vm_compute; reflexivity |].
  split; [vm_compute; reflexivity |].
  split; vm_compute; reflexivity.
Qed.

(* --------------------------------------------------------------------- *)
(** ** Sizing policy *)

(** The cases of the test suite. *)
Example calculateImageSize_fits :
  calculateImageSize (set_Size Sample.narrowModel 100 50)
                     (mkImage (Rect 0 0 64 64) (fun _ _ => Transparent))
  = (50, 100).
Proof. vm_compute. reflexivity. Qed.

Example calculateImageSize_taller :
  calculateImageSize (set_Size Sample.narrowModel 100 20)
                     (mkImage (Rect 0 0 100 200) (fun _ _ => Transparent))
  = (10, 40).
Proof. vm_compute. reflexivity. Qed.

(** C3, as stated, fails: with 40 columns and 50 rows a source of 200 x 100
    pixels is given 20 x 20 pixels, where the stated policy, which takes
    the column count as the available width, gives 40 x 40. *)
Lemma calculateImageSize_not_column_count :
  calculateImageSize Sample.narrowModel Sample.wideImage = (20, 20) /\
  Spec.claimedImageSize (Width Sample.narrowModel) (Height Sample.narrowModel)
                        (Dx (Bounds Sample.wideImage))
                        (Dy (Bounds Sample.wideImage)) = (40, 40) /\
  calculateImageSize Sample.narrowModel Sample.wideImage
  <> Spec.claimedImageSize (Width Sample.narrowModel)
                           (Height Sample.narrowModel)
                           (Dx (Bounds Sample.wideImage))
                           (Dy (Bounds Sample.wideImage)).
Proof.
  split; [vm_compute; reflexivity |].
  split; [vm_compute; reflexivity |].
  vm_compute. discriminate.
Qed.

(** C3, amended.  The available pixel width is half the terminal column
    count (a cell is drawn two characters wide); the target height is that
    width x (sourceHeight / sourceWidth) x 2, cut to an integer; when it
    exceeds twice the terminal row count the height is clamped to that and
    the width recomputed as height / ratio / 2, cut to an integer;
    otherwise width and height are the half column count and the target
    height.  The processor package computes the same. *)
Theorem calculateImageSize_half_columns (m : model) (img : Img.Image) :
  let maxWidth := Z.quot (Width m) 2 in
  let ratio :=
    Float64.div (Float64.ofInt (Dy (Bounds img)))
                (Float64.ofInt (Dx (Bounds img))) in
  let targetHeight :=
    Float64.toInt
      (Float64.mul (Float64.mul (Float64.ofInt maxWidth) ratio)
                   (Float64.ofInt 2)) in
  let available := int (Height m * 2) in
  (targetHeight <= available ->
   calculateImageSize m img = (maxWidth, targetHeight)) /\
  (available < targetHeight ->
   calculateImageSize m img =
   (Float64.toInt
      (Float64.div (Float64.div (Float64.ofInt available) ratio)
                   (Float64.ofInt 2)),
    available)) /\
  snd (calculateImageSize m img) <= available /\
  Internal.calculateImageSize
    (Internal.NewProcessor (GIF m) (Width m) (Height m)) img
  = calculateImageSize m img.
Proof.
  intros maxWidth ratio targetHeight available.
  unfold calculateImageSize, Internal.calculateImageSize.
  cbn [Internal.width Internal.height].
  fold maxWidth. fold ratio. fold targetHeight. fold available.
  destruct (available <? targetHeight) eqn:E.
  - apply Z.ltb_lt in E.
    split; [lia |]. split; [reflexivity |].
    split; [cbn [snd]; lia | reflexivity].
  - apply Z.ltb_ge in E.
    split; [reflexivity |]. split; [lia |].
    split; [cbn [snd]; lia | reflexivity].
Qed.

Lemma calculateImageSize_half_columns_witness :
  calculateImageSize Sample.narrowModel Sample.wideImage = (20, 20).
Proof.
  pose proof (calculateImageSize_half_columns Sample.narrowModel
                                               Sample.wideImage) as H.
  cbv zeta in H. destruct H as (H & _).
  rewrite H; [vm_compute; reflexivity | vm_compute; discriminate].
Defined.

(* --------------------------------------------------------------------- *)
(** ** Canvas size *)

(** The accumulators of the loop in [getGifDimensions], from any start. *)
Lemma getGifDimensions_fold (imgs : list Paletted) (lx ly hx hy : Z) :
  fold_left
    (fun '(lowestX, lowestY, highestX, highestY) (img : Paletted) =>
       let lowestX :=
         if X (Min (PRect img)) <? lowestX then X (Min (PRect img))
         else lowestX in
       let lowestY :=
         if Y (Min (PRect img)) <? lowestY then Y (Min (PRect img))
         else lowestY in
       let highestX :=
         if highestX <? X (Max (PRect img)) then X (Max (PRect img))
         else highestX in
       let highestY :=
         if highestY <? Y (Max (PRect img)) then Y (Max (PRect img))
         else highestY in
       (lowestX, lowestY, highestX, highestY))
    imgs (lx, ly, hx, hy)
  = (Spec.minimum lx (map (fun f => X (Min (PRect f))) imgs),
     Spec.minimum ly (map (fun f => Y (Min (PRect f))) imgs),
     Spec.maximum hx (map (fun f => X (Max (PRect f))) imgs),
     Spec.maximum hy (map (fun f => Y (Max (PRect f))) imgs)).
Proof.
  revert lx ly hx hy.
  induction imgs as [| img imgs IH]; intros lx ly hx hy; [reflexivity |].
  cbn [fold_left map]. rewrite IH. unfold Spec.minimum, Spec.maximum.
  cbn [fold_right].
  assert (Hmin : forall a zs b,
             fold_right Z.min (if a <? b then a else b) zs
             = Z.min a (fold_right Z.min b zs)).
  { intros a zs. induction zs as [| z zs IHz]; intros b; cbn [fold_right].
    - destruct (Z.ltb_spec a b); lia.
    - rewrite IHz. lia. }
  assert (Hmax : forall a zs b,
             fold_right Z.max (if b <? a then a else b) zs
             = Z.max a (fold_right Z.max b zs)).
  { intros a zs. induction zs as [| z zs IHz]; intros b; cbn [fold_right].
    - destruct (Z.ltb_spec b a); lia.
    - rewrite IHz. lia. }
  rewrite !Hmin, !Hmax. reflexivity.
Qed.

(** [Spec.lowest] is the greatest lower bound of the values and zero. *)
Lemma lowest_spec (zs : list Z) :
  Spec.lowest zs <= 0 /\
  Forall (fun z => Spec.lowest zs <= z) zs /\
  (Spec.lowest zs = 0 \/ In (Spec.lowest zs) zs).
Proof.
  unfold Spec.lowest.
  induction zs as [| z zs (H0 & Hall & Hin)]; cbn [fold_right].
  - split; [lia |]. split; [constructor | left; reflexivity].
  - split; [lia |]. split.
    + constructor; [lia |].
      eapply Forall_impl; [| exact Hall]. cbv beta. intros; lia.
    + destruct (Z.min_spec z (fold_right Z.min 0 zs)) as [[_ E] | [_ E]];
        rewrite E.
      * right; left; reflexivity.
      * destruct Hin as [Hin | Hin]; [left; exact Hin | right; right; exact Hin].
Qed.

(** [Spec.highest] is the least upper bound of the values and zero. *)
Lemma highest_spec (zs : list Z) :
  0 <= Spec.highest zs /\
  Forall (fun z => z <= Spec.highest zs) zs /\
  (Spec.highest zs = 0 \/ In (Spec.highest zs) zs).
Proof.
  unfold Spec.highest.
  induction zs as [| z zs (H0 & Hall & Hin)]; cbn [fold_right].
  - split; [lia |]. split; [constructor | left; reflexivity].
  - split; [lia |]. split.
    + constructor; [lia |].
      eapply Forall_impl; [| exact Hall]. cbv beta. intros; lia.
    + destruct (Z.max_spec z (fold_right Z.max 0 zs)) as [[_ E] | [_ E]];
        rewrite E.
      * destruct Hin as [Hin | Hin]; [left; exact Hin | right; right; exact Hin].
      * right; left; reflexivity.
Qed.

(** C4, as stated, fails: for the single frame with bounds (16,16)-(48,48)
    the bounding box of the frames is 32 x 32 but the computed canvas is
    48 x 48. *)
Lemma getGifDimensions_not_bounding_box :
  Image Sample.offsetGIF <> [] /\
  Spec.boundingBoxSize (Image Sample.offsetGIF) = Some (32, 32) /\
  getGifDimensions Sample.offsetGIF = (48, 48) /\
  Some (getGifDimensions Sample.offsetGIF)
  <> Spec.boundingBoxSize (Image Sample.offsetGIF).
Proof.
  split; [discriminate |]. split; [reflexivity |]. split; [reflexivity |].
  vm_compute. discriminate.
Qed.

(** The processor package computes the canvas size the same way. *)
Lemma GetGIFDimensions_same (g : Gif.GIF) :
  Internal.GetGIFDimensions g = getGifDimensions g.
Proof.
  unfold Internal.GetGIFDimensions, getGifDimensions.
  lazymatch goal with
  | |- ?lhs = ?rhs =>
      lazymatch lhs with
      | context [fold_left ?f (Image g) (0, 0, 0, 0)] =>
          lazymatch rhs with
          | context [fold_left ?h (Image g) (0, 0, 0, 0)] =>
              assert (Hfold : forall imgs acc,
                         fold_left f imgs acc = fold_left h imgs acc)
          end
      end
  end.
  { induction imgs as [| img imgs IH]; intros acc; [reflexivity |].
    cbn [fold_left]. rewrite IH.
    destruct acc as [[[lx ly] hx] hy]. reflexivity. }
  rewrite Hfold. reflexivity.
Qed.

(** C4, amended.  The canvas size is that of the bounding box of all frame
    bounds together with the origin: the width is the greatest of zero and
    all Max.X minus the least of zero and all Min.X, the height likewise
    (as an [int]); both packages compute it. *)
Theorem getGifDimensions_origin_box (g : Gif.GIF) :
  getGifDimensions g
  = (int (Spec.highest (map (fun f => X (Max (PRect f))) (Image g))
          - Spec.lowest (map (fun f => X (Min (PRect f))) (Image g))),
     int (Spec.highest (map (fun f => Y (Max (PRect f))) (Image g))
          - Spec.lowest (map (fun f => Y (Min (PRect f))) (Image g)))) /\
  Internal.GetGIFDimensions g = getGifDimensions g.
Proof.
  split; [| apply GetGIFDimensions_same].
  unfold getGifDimensions.
  generalize (getGifDimensions_fold (Image g) 0 0 0 0).
  destruct (fold_left _ (Image g) (0, 0, 0, 0)) as [[[lx ly] hx] hy].
  intros E. injection E as -> -> -> ->. reflexivity.
Qed.

(** For frames that lie in the quadrant of non-negative coordinates, as
    the frames of a decoded GIF do, the canvas (0,0)-(width,height)
    contains every frame. *)
Lemma getGifDimensions_covers (g : Gif.GIF) (f : Paletted) :
  Forall (fun f => 0 <= X (Min (PRect f)) /\ 0 <= Y (Min (PRect f)) /\
                   X (Max (PRect f)) < 2 ^ 62 /\ Y (Max (PRect f)) < 2 ^ 62)
         (Image g) ->
  In f (Image g) ->
  X (Max (PRect f)) <= fst (getGifDimensions g) /\
  Y (Max (PRect f)) <= snd (getGifDimensions g).
Proof.
  intros Hall Hin.
  unfold getGifDimensions. rewrite getGifDimensions_fold.
  change (Spec.minimum 0) with Spec.lowest.
  change (Spec.maximum 0) with Spec.highest.
  cbn [fst snd].
  set (minXs := map (fun f => X (Min (PRect f))) (Image g)) in *.
  set (minYs := map (fun f => Y (Min (PRect f))) (Image g)) in *.
  set (maxXs := map (fun f => X (Max (PRect f))) (Image g)) in *.
  set (maxYs := map (fun f => Y (Max (PRect f))) (Image g)) in *.
  destruct (lowest_spec minXs) as (Lx0 & _ & Lxin).
  destruct (lowest_spec minYs) as (Ly0 & _ & Lyin).
  destruct (highest_spec maxXs) as (Hx0 & Hxall & Hxin).
  destruct (highest_spec maxYs) as (Hy0 & Hyall & Hyin).
  rewrite Forall_forall in Hall, Hxall, Hyall.
  assert (Lx : Spec.lowest minXs = 0).
  { destruct Lxin as [E0 | Hi]; [exact E0 |].
    apply in_map_iff in Hi. destruct Hi as (f' & Ef & Hf').
    specialize (Hall f' Hf'). lia. }
  assert (Ly : Spec.lowest minYs = 0).
  { destruct Lyin as [E0 | Hi]; [exact E0 |].
    apply in_map_iff in Hi. destruct Hi as (f' & Ef & Hf').
    specialize (Hall f' Hf'). lia. }
  assert (Hx : Spec.highest maxXs < 2 ^ 62).
  { destruct Hxin as [E0 | Hi]; [rewrite E0; lia |].
    apply in_map_iff in Hi. destruct Hi as (f' & Ef & Hf').
    specialize (Hall f' Hf'). lia. }
  assert (Hy : Spec.highest maxYs < 2 ^ 62).
  { destruct Hyin as [E0 | Hi]; [rewrite E0; lia |].
    apply in_map_iff in Hi. destruct Hi as (f' & Ef & Hf').
    specialize (Hall f' Hf'). lia. }
  assert (Fx : X (Max (PRect f)) <= Spec.highest maxXs).
  { apply Hxall. apply in_map_iff. exists f. split; [reflexivity | exact Hin]. }
  assert (Fy : Y (Max (PRect f)) <= Spec.highest maxYs).
  { apply Hyall. apply in_map_iff. exists f. split; [reflexivity | exact Hin]. }
  rewrite Lx, Ly, !Z.sub_0_r.
  unfold int, wrap_signed.
  change (2 ^ (64 - 1)) with 9223372036854775808.
  change (2 ^ 64) with 18446744073709551616.
  change (2 ^ 62) with 4611686018427387904 in *.
  rewrite !Z.mod_small by lia. lia.
Qed.

(* --------------------------------------------------------------------- *)
(** ** Drawing on a buffer *)

Lemma nth_map_seq {A : Type} (f : nat -> A) (n i : nat) (d : A) :
  (i < n)%nat -> nth i (map f (seq 0 n)) d = f i.
Proof.
  intros Hi.
  rewrite (nth_indep _ d (f 0%nat)) by (rewrite length_map, length_seq; exact Hi).
  rewrite (map_nth f (seq 0 n) 0%nat i).
  rewrite seq_nth by exact Hi. reflexivity.
Qed.

Lemma map_nth_seq {A : Type} (l : list A) (d : A) :
  map (fun i => nth i l d) (seq 0 (List.length l)) = l.
Proof.
  apply (nth_ext _ _ d d).
  - rewrite length_map, length_seq. reflexivity.
  - intros i Hi. rewrite length_map, length_seq in Hi.
    apply (nth_map_seq (fun j => nth j l d)). exact Hi.
Qed.

(** The offset of a point of the bounds, and back. *)
Lemma PixOffset_range (r : Rectangle) (x y : Z) :
  PointIn (mkPoint x y) r = true ->
  0 <= PixOffset r x y < Dx r * Dy r /\
  PixOffset r x y mod Dx r = x - X (Min r) /\
  PixOffset r x y / Dx r = y - Y (Min r).
Proof.
  unfold PointIn, PixOffset, Dx, Dy. cbn [X Y].
  intros H. apply andb_prop in H. destruct H as [H H4].
  apply andb_prop in H. destruct H as [H H3].
  apply andb_prop in H. destruct H as [H1 H2].
  apply Z.leb_le in H1, H3. apply Z.ltb_lt in H2, H4.
  set (w := X (Max r) - X (Min r)) in *.
  set (h := Y (Max r) - Y (Min r)) in *.
  set (a := x - X (Min r)) in *.
  set (b := y - Y (Min r)) in *.
  assert (Ha : 0 <= a < w) by (unfold a, w; lia).
  assert (Hb : 0 <= b < h) by (unfold b, h; lia).
  split; [nia |]. split.
  - rewrite Z.add_comm, Z.mod_add by lia. apply Z.mod_small. lia.
  - rewrite Z.div_add_l by lia. rewrite Z.div_small by lia. lia.
Qed.

Lemma Draw_Rect (dst : RGBA) (r : Rectangle) (src : Source) (sp : Point)
      (op : Op) :
  RGBARect (Draw dst r src sp op) = RGBARect dst.
Proof.
  unfold Draw. destruct (clip _ _ _ _) as [r' sp'].
  destruct (Empty r'); reflexivity.
Qed.

Lemma Draw_bufferOK (dst : RGBA) (r : Rectangle) (src : Source) (sp : Point)
      (op : Op) :
  bufferOK dst -> bufferOK (Draw dst r src sp op).
Proof.
  intros (Hx & Hy & Hl). unfold bufferOK. rewrite Draw_Rect.
  split; [exact Hx |]. split; [exact Hy |].
  unfold Draw. destruct (clip _ _ _ _) as [r' sp'].
  destruct (Empty r'); [exact Hl |].
  cbn [Pix]. rewrite length_map, length_seq. exact Hl.
Qed.

Lemma NewRGBA_bufferOK (r : Rectangle) :
  0 <= Dx r -> 0 <= Dy r -> bufferOK (NewRGBA r).
Proof.
  intros Hx Hy. unfold bufferOK, NewRGBA. cbn [Pix RGBARect].
  rewrite repeat_length. auto.
Qed.

Lemma Rect_canonical (x0 y0 x1 y1 : Z) :
  0 <= Dx (Rect x0 y0 x1 y1) /\ 0 <= Dy (Rect x0 y0 x1 y1).
Proof.
  unfold Rect, Dx, Dy.
  destruct (Z.ltb_spec x1 x0), (Z.ltb_spec y1 y0); cbn [X Y Min Max]; lia.
Qed.

(** A pixel after [Draw]: inside the clipped rectangle it is the result of
    the operator, elsewhere it is the pixel of the destination. *)
Lemma RGBAAt_Draw (dst : RGBA) (r : Rectangle) (src : Source) (sp : Point)
      (op : Op) (x y : Z) :
  bufferOK dst ->
  RGBAAt (Draw dst r src sp op) x y
  = let (r', sp') := clip (RGBARect dst) r (Bounds (SourceImage src)) sp in
    if negb (Empty r') && PointIn (mkPoint x y) (RGBARect dst)
       && PointIn (mkPoint x y) r'
    then pixelOp op src (X sp' + (x - X (Min r'))) (Y sp' + (y - Y (Min r')))
                 (RGBAAt dst x y)
    else RGBAAt dst x y.
Proof.
  intros (Hx & Hy & Hl). unfold Draw.
  destruct (clip _ _ _ _) as [r' sp'].
  destruct (Empty r'); [reflexivity |]. cbn [negb andb].
  unfold RGBAAt at 1. cbn [RGBARect Pix].
  destruct (PointIn (mkPoint x y) (RGBARect dst)) eqn:Hin; cbn [andb].
  - destruct (PixOffset_range _ _ _ Hin) as (Hoff & Hmod & Hdiv).
    rewrite nth_map_seq by (rewrite Hl; lia).
    unfold pixX, pixY. rewrite Z2Nat.id by lia. rewrite Hmod, Hdiv.
    replace (X (Min (RGBARect dst)) + (x - X (Min (RGBARect dst)))) with x by lia.
    replace (Y (Min (RGBARect dst)) + (y - Y (Min (RGBARect dst)))) with y by lia.
    unfold RGBAAt. rewrite Hin. reflexivity.
  - unfold RGBAAt. rewrite Hin. reflexivity.
Qed.

Lemma Empty_PointIn (r : Rectangle) (p : Point) :
  Empty r = true -> PointIn p r = false.
Proof.
  unfold Empty, PointIn. intros H.
  apply orb_true_iff in H.
  destruct (Z.leb_spec (X (Min r)) (X p)), (Z.ltb_spec (X p) (X (Max r))),
           (Z.leb_spec (Y (Min r)) (Y p)), (Z.ltb_spec (Y p) (Y (Max r)));
    try reflexivity.
  destruct H as [H | H]; apply Z.leb_le in H; lia.
Qed.

Lemma PointIn_Intersect (r s : Rectangle) (p : Point) :
  PointIn p (Intersect r s) = PointIn p r && PointIn p s.
Proof.
  unfold Intersect.
  set (r' := mkRectangle _ _).
  assert (H : PointIn p r' = PointIn p r && PointIn p s).
  { unfold r', PointIn. cbn [X Y Min Max].
    apply Bool.eq_iff_eq_true.
    rewrite !andb_true_iff, !Z.leb_le, !Z.ltb_lt.
    destruct (Z.ltb_spec (X (Min r)) (X (Min s))),
             (Z.ltb_spec (Y (Min r)) (Y (Min s))),
             (Z.ltb_spec (X (Max s)) (X (Max r))),
             (Z.ltb_spec (Y (Max s)) (Y (Max r))); lia. }
  destruct (Empty r') eqn:E; [| exact H].
  rewrite <- H. rewrite (Empty_PointIn r' p E).
  apply Empty_PointIn. reflexivity.
Qed.

Lemma Intersect_self (r : Rectangle) :
  Empty r = false -> Intersect r r = r.
Proof.
  destruct r as [[a b] [c d]]. unfold Intersect. cbn [X Y Min Max].
  rewrite !Z.ltb_irrefl. intros E. rewrite E. reflexivity.
Qed.


(** Copying a whole buffer onto another one with the same bounds, the
    bounds starting at the origin: [draw.Draw(dst, dst.Bounds(), src,
    image.Point{}, draw.Src)]. *)
Lemma Draw_copy (dst src : RGBA) :
  bufferOK dst -> bufferOK src ->
  RGBARect dst = RGBARect src ->
  Min (RGBARect dst) = ZP ->
  Draw dst (RGBARect dst) (SrcRGBA src) ZP Src = src.
Proof.
  intros (Hx & Hy & Hl) (_ & _ & Hls) Hr Hmin.
  rewrite <- Hr in Hls.
  destruct dst as [pix b], src as [spix sb]. cbn [RGBARect Pix] in *. subst sb.
  destruct b as [[minx miny] [maxx maxy]]. cbn [Min] in Hmin.
  injection Hmin as -> ->.
  unfold Dx, Dy in *. cbn [X Y Min Max] in *.
  rewrite !Z.sub_0_r in *.
  unfold Draw, clip. cbn [SourceImage RGBA_Image Bounds RGBARect Pix Min].
  set (b := mkRectangle (mkPoint 0 0) (mkPoint maxx maxy)).
  destruct (Empty b) eqn:Ee.
  - (* no pixel at all *)
    assert (Hz : maxx * maxy = 0).
    { unfold Empty, b in Ee. cbn [X Y Min Max] in Ee.
      apply orb_true_iff in Ee. destruct Ee as [E | E]; apply Z.leb_le in E; nia. }
    rewrite Hz in Hl, Hls. cbn in Hl, Hls.
    destruct pix; [| discriminate]. destruct spix; [| discriminate].
    destruct (Empty (Intersect _ _)); reflexivity.
  - assert (Hbb : Intersect b b = b).
    { apply Intersect_self. exact Ee. }
    assert (Hsh : RectAdd b (PointSub (mkPoint 0 0) ZP) = b).
    { unfold RectAdd, PointSub, ZP, b. cbn [X Y Min Max].
      rewrite !Z.sub_0_r, !Z.add_0_r. reflexivity. }
    rewrite Hbb, Hsh, Hbb, Ee. cbn [X Y Min ZP]. f_equal.
    transitivity (map (fun i => nth i spix zeroRGBA8)
                      (seq 0 (List.length spix))); [| apply map_nth_seq].
    rewrite Hl, Hls.
    apply map_ext_in. intros i Hi. apply in_seq in Hi.
    assert (Hpos : 0 < maxx /\ 0 < maxy).
    { unfold Empty, b in Ee. cbn [X Y Min Max] in Ee.
      apply orb_false_iff in Ee. destruct Ee as [E1 E2].
      apply Z.leb_gt in E1, E2. lia. }
    assert (Hi' : 0 <= Z.of_nat i < maxx * maxy) by lia.
    assert (Hxi : 0 <= Z.of_nat i mod maxx < maxx) by (apply Z.mod_pos_bound; lia).
    assert (Hyi : 0 <= Z.of_nat i / maxx < maxy).
    { split; [apply Z.div_pos; lia |].
      apply Z.div_lt_upper_bound; [lia | nia]. }
    unfold pixX, pixY, Dx, b. cbn [X Y Min Max]. fold b.
    rewrite !Z.sub_0_r, !Z.add_0_l.
    assert (Hp : PointIn (mkPoint (Z.of_nat i mod maxx) (Z.of_nat i / maxx)) b = true).
    { unfold PointIn, b. cbn [X Y Min Max].
      repeat (apply andb_true_intro; split);
        first [apply Z.leb_le | apply Z.ltb_lt]; lia. }
    rewrite Hp. unfold pixelOp, RGBAAt. cbn [RGBARect Pix]. fold b. rewrite Hp.
    f_equal. unfold PixOffset, Dx, b. cbn [X Y Min Max].
    rewrite !Z.sub_0_r.
    pose proof (Z.div_mod (Z.of_nat i) maxx ltac:(lia)) as Hdm.
    apply Nat2Z.inj. rewrite Z2Nat.id by nia. lia.
Qed.

(* --------------------------------------------------------------------- *)
(** ** The frame loop *)

Lemma newCanvas_OK (g : Gif.GIF) : canvasOK (canvasRect g) (newCanvas g).
Proof.
  unfold newCanvas, canvasRect.
  destruct (getGifDimensions g) as [w h]. cbn [fst snd].
  destruct (Rect_canonical 0 0 w h) as [Hx Hy].
  pose proof (NewRGBA_bufferOK (Rect 0 0 w h) Hx Hy) as Hb.
  unfold canvasOK. cbn [currentImage previousImage].
  split; [exact Hb |]. split; [exact Hb |]. split; reflexivity.
Qed.

Lemma savePrevious_OK (g : Gif.GIF) (i : nat) (r : Rectangle) (c c' : Canvas) :
  canvasOK r c -> savePrevious g i c = Some c' -> canvasOK r c'.
Proof.
  intros (Hc & Hp & Rc & Rp) H. destruct i as [| j]; cbn [savePrevious applyDisposal canvasAfter obind] in H.
  - injection H as <-. unfold canvasOK; auto.
  - destruct (nth_error (Disposal g) j) as [d |]; cbn [savePrevious applyDisposal canvasAfter obind] in H; [| discriminate].
    injection H as <-.
    destruct (d =? DisposalPrevious); [| unfold canvasOK; auto].
    unfold canvasOK. cbn [currentImage previousImage]. rewrite Draw_Rect.
    split; [exact Hc |]. split; [apply Draw_bufferOK; exact Hp |].
    split; assumption.
Qed.

Lemma processFrame_OK (cur prev : RGBA) (img : Paletted) (d : Z) :
  bufferOK cur ->
  bufferOK (processFrame cur prev img d) /\
  RGBARect (processFrame cur prev img d) = RGBARect cur.
Proof.
  intros H. unfold processFrame.
  destruct (d =? DisposalBackground);
    [split; [apply Draw_bufferOK; exact H | apply Draw_Rect] |].
  destruct (d =? DisposalPrevious);
    [split; [apply Draw_bufferOK; exact H | apply Draw_Rect] |].
  split; [exact H | reflexivity].
Qed.

Lemma applyDisposal_OK (g : Gif.GIF) (i : nat) (r : Rectangle) (c c' : Canvas) :
  canvasOK r c -> applyDisposal g i c = Some c' -> canvasOK r c'.
Proof.
  intros (Hc & Hp & Rc & Rp) H. destruct i as [| j]; cbn [savePrevious applyDisposal canvasAfter obind] in H.
  - injection H as <-. unfold canvasOK; auto.
  - destruct (nth_error (Image g) j) as [img |]; cbn [savePrevious applyDisposal canvasAfter obind] in H; [| discriminate].
    destruct (nth_error (Disposal g) j) as [d |]; cbn [savePrevious applyDisposal canvasAfter obind] in H; [| discriminate].
    injection H as <-.
    destruct (processFrame_OK (currentImage c) (previousImage c) img d Hc)
      as [Hb Hr].
    unfold canvasOK. cbn [currentImage previousImage].
    rewrite Hr. auto.
Qed.

Lemma composite_OK (r : Rectangle) (c : Canvas) (img : Paletted) :
  canvasOK r c -> canvasOK r (composite c img).
Proof.
  intros (Hc & Hp & Rc & Rp). unfold canvasOK, composite.
  cbn [currentImage previousImage]. rewrite Draw_Rect.
  split; [apply Draw_bufferOK; exact Hc |]. auto.
Qed.

(** Both buffers keep the shape [NewRGBA] gave them all along the loop. *)
Lemma canvasAfter_OK (g : Gif.GIF) (n : nat) (c : Canvas) :
  canvasAfter g n = Some c -> canvasOK (canvasRect g) c.
Proof.
  revert c. induction n as [| n IH]; intros c H; cbn [savePrevious applyDisposal canvasAfter obind] in H.
  - injection H as <-. apply newCanvas_OK.
  - destruct (canvasAfter g n) as [c0 |]; cbn [savePrevious applyDisposal canvasAfter obind] in H; [| discriminate].
    destruct (nth_error (Image g) n) as [img |]; cbn [savePrevious applyDisposal canvasAfter obind] in H; [| discriminate].
    destruct (savePrevious g n c0) as [c1 |] eqn:E1; cbn [savePrevious applyDisposal canvasAfter obind] in H; [| discriminate].
    destruct (applyDisposal g n c1) as [c2 |] eqn:E2; cbn [savePrevious applyDisposal canvasAfter obind] in H; [| discriminate].
    injection H as <-.
    apply composite_OK. eapply applyDisposal_OK; [| exact E2].
    eapply savePrevious_OK; [| exact E1]. apply IH. reflexivity.
Qed.

(** The loop gets through the frames [0 .. n-1] without a panic when the
    disposal codes of the frames before frame [n-1] are there. *)
Lemma canvasAfter_total (g : Gif.GIF) (n : nat) :
  (n <= List.length (Image g))%nat ->
  (n <= S (List.length (Disposal g)))%nat ->
  exists c, canvasAfter g n = Some c.
Proof.
  induction n as [| n IH]; intros Hi Hd; cbn [canvasAfter obind].
  - eexists; reflexivity.
  - destruct IH as [c Hc]; [lia | lia |]. rewrite Hc. cbn [obind].
    destruct (nth_error (Image g) n) as [img |] eqn:Ei;
      [| apply nth_error_None in Ei; lia].
    cbn [obind]. destruct n as [| j]; cbn [savePrevious applyDisposal obind].
    + eexists; reflexivity.
    + destruct (nth_error (Disposal g) j) as [d |] eqn:Ed;
        [| apply nth_error_None in Ed; lia].
      cbn [obind]. destruct (nth_error (Image g) j) as [prevImg |] eqn:Ej;
        [| apply nth_error_None in Ej; lia].
      cbn [obind]. eexists; reflexivity.
Qed.

(* --------------------------------------------------------------------- *)
(** ** Disposal *)



(** When frame [i] asks for "restore to previous", the loop saves the
    canvas at the start of pass [i+1], after frame [i] was composited, and
    restores that very copy: frame [i+1] is composited on the canvas as
    frame [i] left it. *)
Lemma restorePrevious_keeps_frame (g : Gif.GIF) (i : nat) (next : Paletted)
      (after : RGBA) :
  canvasSizeOK g ->
  nth_error (Image g) (S i) = Some next ->
  nth_error (Disposal g) i = Some DisposalPrevious ->
  drawnAfter g i = Some after ->
  baseFor g (S i) = Some after.
Proof.
  intros [Hw Hh] Hn Hd Ha. unfold drawnAfter in Ha.
  destruct (canvasAfter g (S i)) as [c |] eqn:Hc; cbn [obind] in Ha;
    [| discriminate].
  injection Ha as <-.
  pose proof (canvasAfter_OK g (S i) c Hc) as (Hcur & Hprev & Rc & Rp).
  assert (Hmin : Min (canvasRect g) = ZP).
  { unfold canvasRect, Rect.
    destruct (Z.ltb_spec (fst (getGifDimensions g)) 0); [lia |].
    destruct (Z.ltb_spec (snd (getGifDimensions g)) 0); [lia |].
    reflexivity. }
  assert (Hi : exists img, nth_error (Image g) i = Some img).
  { destruct (nth_error (Image g) i) as [img |] eqn:E; [eexists; reflexivity |].
    apply nth_error_None in E.
    assert (S i < List.length (Image g))%nat
      by (apply nth_error_Some; congruence).
    lia. }
  destruct Hi as [img Hi].
  unfold baseFor. rewrite Hc. cbn [obind]. rewrite Hn. cbn [obind].
  cbn [savePrevious applyDisposal]. rewrite Hd. cbn [obind].
  rewrite Z.eqb_refl. rewrite Hi. cbn [obind currentImage previousImage].
  unfold processFrame.
  change (DisposalPrevious =? DisposalBackground) with false.
  rewrite Z.eqb_refl. cbn iota.
  assert (Hsaved : Draw (previousImage c) (RGBARect (previousImage c))
                        (SrcRGBA (currentImage c)) ZP Src = currentImage c).
  { apply Draw_copy; try assumption; congruence. }
  rewrite Hsaved. f_equal.
  apply Draw_copy; try assumption; congruence.
Qed.

(** C1.  On the one-pixel GIF whose frame 0 paints the pixel red and asks
    for "restore to previous", the canvas before frame 0 is drawn is
    transparent, but frame 1 is composited on the red canvas: the copy
    that is restored was taken after frame 0 was drawn. *)
Theorem restorePrevious_restores_drawn_frame :
  nth_error (Disposal Sample.restorePreviousGIF) 0 = Some DisposalPrevious /\
  baseFor Sample.restorePreviousGIF 0
    = Some (mkRGBA [zeroRGBA8] (Rect 0 0 1 1)) /\
  drawnAfter Sample.restorePreviousGIF 0
    = Some (mkRGBA [Sample.red] (Rect 0 0 1 1)) /\
  baseFor Sample.restorePreviousGIF 1
    = Some (mkRGBA [Sample.red] (Rect 0 0 1 1)) /\
  baseFor Sample.restorePreviousGIF 1 <> baseFor Sample.restorePreviousGIF 0.
Proof.
  split; [reflexivity |].
  split; [vm_compute; reflexivity |].
  split; [vm_compute; reflexivity |].
  split; [vm_compute; reflexivity |].
  vm_compute. discriminate.
Qed.

(* --------------------------------------------------------------------- *)
(** ** The loop of [ProcessGIF] and its frames *)

(** One frame string per frame. *)
Lemma frameLoop_length `{Ext : Externals} (m : model) (imgs : list Paletted)
      (i : nat) (c : Canvas) (r : list string * list progressMsg) :
  frameLoop m imgs i c = Some r ->
  List.length (fst r) = List.length imgs.
Proof.
  revert i c r. induction imgs as [| img imgs IH]; intros i c r H;
    cbn [frameLoop] in H.
  - injection H as <-. reflexivity.
  - destruct (savePrevious (GIF m) i c) as [c1 |]; cbn [obind] in H;
      [| discriminate].
    destruct (applyDisposal (GIF m) i c1) as [c2 |]; cbn [obind] in H;
      [| discriminate].
    destruct (renderImageHalfBlock _ _ _) as [frame sent].
    destruct (frameLoop m imgs (S i) (composite c2 img)) as [r' |] eqn:E;
      cbn [obind] in H; [| discriminate].
    injection H as <-. cbn [fst List.length]. f_equal. eapply IH. exact E.
Qed.

Lemma ProcessGIF_length `{Ext : Externals} (m m' : model) (sent : list progressMsg)
      (msg : Msg) :
  ProcessGIF m = Some (m', sent, msg) ->
  List.length (Frames m') = List.length (Image (GIF m)) /\
  msg = processingCompleteMsg.
Proof.
  unfold ProcessGIF. intros H.
  destruct (frameLoop m (Image (GIF m)) 0 (newCanvas (GIF m))) as [r |] eqn:E;
    cbn [obind] in H; [| discriminate].
  injection H as <- _ <-. cbn [Frames set_Frames].
  split; [eapply frameLoop_length; exact E | reflexivity].
Qed.

(** The frame strings are the renderings of the canvases the loop goes
    through: frame [i + k] of the GIF is rendered from a copy of the
    canvas after pass [i + k]. *)
Lemma frameLoop_frames `{Ext : Externals} (m : model) (rest : list Paletted)
      (i : nat) (c : Canvas) (r : list string * list progressMsg) (k : nat) :
  canvasAfter (GIF m) i = Some c ->
  skipn i (Image (GIF m)) = rest ->
  frameLoop m rest i c = Some r ->
  (k < List.length rest)%nat ->
  exists c',
    canvasAfter (GIF m) (S (i + k)) = Some c' /\
    nth_error (fst r) k
    = Some (fst (renderImageHalfBlock
                   m (RGBA_Image (imgCopy (currentImage c')))
                   (Nat.eqb (i + k) 0))).
Proof.
  revert i c r k.
  induction rest as [| img rest IH]; intros i c r k Hc Hs H Hk;
    [cbn in Hk; lia |].
  cbn [frameLoop] in H.
  destruct (savePrevious (GIF m) i c) as [c1 |] eqn:E1; cbn [obind] in H;
    [| discriminate].
  destruct (applyDisposal (GIF m) i c1) as [c2 |] eqn:E2; cbn [obind] in H;
    [| discriminate].
  destruct (renderImageHalfBlock m _ (Nat.eqb i 0)) as [frame sent] eqn:Er.
  destruct (frameLoop m rest (S i) (composite c2 img)) as [r' |] eqn:E;
    cbn [obind] in H; [| discriminate].
  injection H as <-.
  assert (Hi : nth_error (Image (GIF m)) i = Some img).
  { rewrite <- (firstn_skipn i (Image (GIF m))) at 1. rewrite Hs.
    assert (Hl : (i <= List.length (Image (GIF m)))%nat).
    { destruct (Nat.le_gt_cases i (List.length (Image (GIF m)))) as [L | L];
        [exact L |].
      rewrite skipn_all2 in Hs by lia. discriminate. }
    rewrite nth_error_app2 by (rewrite length_firstn; lia).
    rewrite length_firstn, Nat.min_l by exact Hl.
    rewrite Nat.sub_diag. reflexivity. }
  assert (Hnext : canvasAfter (GIF m) (S i) = Some (composite c2 img)).
  { cbn [canvasAfter]. rewrite Hc. cbn [obind]. rewrite Hi. cbn [obind].
    rewrite E1. cbn [obind]. rewrite E2. reflexivity. }
  destruct k as [| k].
  - exists (composite c2 img). rewrite Nat.add_0_r.
    split; [exact Hnext |]. cbn [fst nth_error]. rewrite Er. reflexivity.
  - destruct (IH (S i) (composite c2 img) r' k Hnext) as (c' & Hc' & Hf).
    + change (S i) with (1 + i)%nat. rewrite <- skipn_skipn, Hs. reflexivity.
    + exact E.
    + cbn in Hk. lia.
    + exists c'. rewrite <- Nat.add_succ_comm. split; [exact Hc' |].
      cbn [fst nth_error]. exact Hf.
Qed.

(* --------------------------------------------------------------------- *)
(** ** The two implementations of the pipeline *)

Lemma rowLoop_same `{Ext : Externals} (resized : Img.Image) (total : Z)
      (chanI chanC : bool) (fuel : nat) (y : Z) (sb : string) (row : Z) :
  fst (Internal.rowLoop resized total chanI fuel y sb row)
  = fst (rowLoop resized total chanC fuel y sb row).
Proof.
  revert y sb row. induction fuel as [| fuel IH]; intros y sb row;
    [reflexivity |].
  cbn [Internal.rowLoop rowLoop].
  destruct (y <? Y (Max (Bounds resized))); [| reflexivity].
  change (Internal.renderRow resized y) with (renderRow resized y).
  specialize (IH (y + 2) (sb ++ renderRow resized y ++ newline)%string
                 (row + 1)).
  destruct (Internal.rowLoop _ _ _ _ _ _ _) as [tI lI].
  destruct (rowLoop _ _ _ _ _ _ _) as [tC lC].
  exact IH.
Qed.

Lemma renderHalfBlock_same `{Ext : Externals} (m : model) (img : Img.Image)
      (chanI chanC : bool) :
  fst (Internal.renderHalfBlock
         (Internal.NewProcessor (GIF m) (Width m) (Height m)) img chanI)
  = fst (renderImageHalfBlock m img chanC).
Proof.
  unfold Internal.renderHalfBlock, renderImageHalfBlock.
  change (Internal.calculateImageSize
            (Internal.NewProcessor (GIF m) (Width m) (Height m)) img)
    with (calculateImageSize m img).
  destruct (calculateImageSize m img) as [w h].
  apply rowLoop_same.
Qed.

Lemma frameLoop_same `{Ext : Externals} (m : model) (chanI : bool)
      (imgs : list Paletted) (i : nat) (c : Canvas) :
  skipn i (Image (GIF m)) = imgs ->
  option_map fst
    (Internal.frameLoop (Internal.NewProcessor (GIF m) (Width m) (Height m))
                        chanI imgs i (currentImage c) (previousImage c))
  = option_map fst (frameLoop m imgs i c).
Proof.
  set (p := Internal.NewProcessor (GIF m) (Width m) (Height m)).
  revert i c. induction imgs as [| img imgs IH]; intros i c Hs; [reflexivity |].
  assert (Hlen : (i < List.length (Image (GIF m)))%nat).
  { destruct (Nat.le_gt_cases (List.length (Image (GIF m))) i) as [L | L];
      [| exact L].
    rewrite skipn_all2 in Hs by exact L. discriminate. }
  assert (Hnext : skipn (S i) (Image (GIF m)) = imgs).
  { change (S i) with (1 + i)%nat. rewrite <- skipn_skipn, Hs. reflexivity. }
  cbn [Internal.frameLoop frameLoop].
  (* the two statements about the frame before *)
  assert (Hdisp :
    match i with
    | O => Some (previousImage c)
    | S j =>
        d <- nth_error (Disposal (Internal.gif p)) j ;;
        Some (if d =? DisposalPrevious
              then Draw (previousImage c) (RGBARect (previousImage c))
                        (SrcRGBA (currentImage c)) ZP Src
              else previousImage c)
    end = option_map previousImage (savePrevious (GIF m) i c)).
  { destruct i as [| j]; [reflexivity |]. cbn [savePrevious Internal.gif p].
    destruct (nth_error (Disposal (GIF m)) j) as [d |]; [| reflexivity].
    cbn [obind option_map]. destruct (d =? DisposalPrevious); reflexivity. }
  rewrite Hdisp. clear Hdisp.
  destruct (savePrevious (GIF m) i c) as [c1 |] eqn:E1;
    cbn [obind option_map]; [| reflexivity].
  assert (Hcur : currentImage c1 = currentImage c).
  { destruct i as [| j]; cbn [savePrevious] in E1.
    - injection E1 as <-. reflexivity.
    - destruct (nth_error (Disposal (GIF m)) j) as [d |];
        cbn [obind] in E1; [| discriminate].
      injection E1 as <-. destruct (d =? DisposalPrevious); reflexivity. }
  assert (Happ :
    match i with
    | O => Some (currentImage c)
    | S j =>
        d <- nth_error (Disposal (Internal.gif p)) j ;;
        if d =? DisposalBackground then
          prevImg <- nth_error (Image (Internal.gif p)) j ;;
          Some (Draw (currentImage c) (PRect prevImg)
                     (SrcUniform Transparent) ZP Src)
        else if d =? DisposalPrevious then
          Some (Draw (currentImage c) (RGBARect (currentImage c))
                     (SrcRGBA (previousImage c1)) ZP Src)
        else Some (currentImage c)
    end = option_map currentImage (applyDisposal (GIF m) i c1) /\
    option_map previousImage (applyDisposal (GIF m) i c1)
    = option_map (fun _ => previousImage c1) (applyDisposal (GIF m) i c1)).
  { destruct i as [| j];
      [cbn [applyDisposal option_map]; rewrite Hcur; split; reflexivity |].
    cbn [applyDisposal Internal.gif p].
    destruct (nth_error (Image (GIF m)) j) as [prevImg |] eqn:Ej;
      [| apply nth_error_None in Ej; lia].
    cbn [obind].
    destruct (nth_error (Disposal (GIF m)) j) as [d |]; [| split; reflexivity].
    cbn [obind option_map currentImage previousImage]. rewrite Hcur.
    unfold processFrame.
    destruct (d =? DisposalBackground); [split; reflexivity |].
    destruct (d =? DisposalPrevious); split; reflexivity. }
  destruct Happ as [Happ Hprev]. rewrite Happ. clear Happ.
  destruct (applyDisposal (GIF m) i c1) as [c2 |] eqn:E2;
    cbn [obind option_map] in *; [| reflexivity].
  injection Hprev as Hprev.
  specialize (IH (S i) (composite c2 img) Hnext).
  unfold imgCopy, composite in *. cbn [currentImage previousImage] in *.
  set (drawn := Draw (currentImage c2) (RGBARect (currentImage c2))
                     (SrcPaletted img) ZP Over) in *.
  set (copy := RGBA_Image
                 (Draw (NewRGBA (RGBARect drawn))
                       (RGBARect (NewRGBA (RGBARect drawn)))
                       (SrcRGBA drawn) ZP Src)) in *.
  assert (Hframe :
    fst (if Nat.eqb i 0 && chanI
         then Internal.renderHalfBlock p copy true
         else Internal.renderHalfBlock p copy false)
    = fst (renderImageHalfBlock m copy (Nat.eqb i 0))).
  { destruct (Nat.eqb i 0 && chanI); apply renderHalfBlock_same. }
  destruct (if Nat.eqb i 0 && chanI
            then Internal.renderHalfBlock p copy true
            else Internal.renderHalfBlock p copy false) as [fI sI].
  destruct (renderImageHalfBlock m copy (Nat.eqb i 0)) as [fC sC].
  cbn [fst] in Hframe. subst fI.
  rewrite Hprev in IH |- *.
  destruct (Internal.frameLoop p chanI imgs (S i) drawn (previousImage c1))
    as [rI |];
    destruct (frameLoop m imgs (S i) (mkCanvas drawn (previousImage c1)))
      as [rC |];
    cbn [obind option_map fst] in *; try discriminate; [| reflexivity].
  injection IH as ->. reflexivity.
Qed.

(** C10.  With the same GIF and the same terminal size, the renderer of
    the processor returns the text the renderer of the viewer returns,
    whatever the progress channels, and [ProcessAllFrames] returns the
    frame strings [ProcessGIF] stores in the model (or both panic). *)
Theorem processor_matches_viewer `{Ext : Externals} (m : model)
        (img : Img.Image) (chanI chanC : bool) :
  let p := Internal.NewProcessor (GIF m) (Width m) (Height m) in
  fst (Internal.renderHalfBlock p img chanI)
  = fst (renderImageHalfBlock m img chanC) /\
  option_map fst (Internal.ProcessAllFrames p chanI)
  = option_map (fun r => Frames (fst (fst r))) (ProcessGIF m).
Proof.
  intros p. split; [apply renderHalfBlock_same |].
  unfold Internal.ProcessAllFrames, ProcessGIF, p. cbn [Internal.gif].
  rewrite GetGIFDimensions_same.
  pose proof (frameLoop_same m chanI (Image (GIF m)) 0 (newCanvas (GIF m))
                             eq_refl) as Hloop.
  unfold newCanvas in *.
  destruct (getGifDimensions (GIF m)) as [w h].
  cbn [currentImage previousImage] in Hloop. rewrite Hloop.
  destruct (frameLoop m (Image (GIF m)) 0 _) as [r |]; reflexivity.
Qed.

(** On the sample GIF both give the same three frames. *)
Example sample_frames_agree :
  option_map fst
    (@Internal.ProcessAllFrames Sample.plainExternals
       (Internal.NewProcessor Sample.restoreBackgroundGIF 80 40) true)
  = option_map (fun r => Frames (fst (fst r)))
               (@ProcessGIF Sample.plainExternals Sample.loadingModel) /\
  option_map (fun r => List.length (fst r))
    (@Internal.ProcessAllFrames Sample.plainExternals
       (Internal.NewProcessor Sample.restoreBackgroundGIF 80 40) true)
  = Some 3%nat.
Proof. split; vm_compute; reflexivity. Qed.

(* --------------------------------------------------------------------- *)
(** ** Progress messages *)

Lemma int_small (z : Z) : minInt <= z <= maxInt -> int z = z.
Proof.
  unfold int, wrap_signed, minInt, maxInt.
  change (2 ^ (64 - 1)) with 9223372036854775808.
  change (2 ^ 64) with 18446744073709551616.
  change (2 ^ 63) with 9223372036854775808.
  intros H. rewrite Z.mod_small by lia. lia.
Qed.

(** The row loop leaves by its condition: once the fuel covers the rows
    that are left, more fuel changes nothing. *)
Lemma rowLoop_fuel `{Ext : Externals} (resized : Img.Image) (total : Z)
      (chan : bool) (fuel extra : nat) (y : Z) (sb : string) (row : Z) :
  Y (Max (Bounds resized)) - y <= Z.of_nat fuel ->
  rowLoop resized total chan (fuel + extra) y sb row
  = rowLoop resized total chan fuel y sb row.
Proof.
  revert y sb row. induction fuel as [| fuel IH]; intros y sb row Hf.
  - destruct extra as [| extra]; [reflexivity |].
    cbn [Nat.add rowLoop].
    destruct (Z.ltb_spec y (Y (Max (Bounds resized)))); [lia | reflexivity].
  - cbn [Nat.add rowLoop].
    destruct (Z.ltb_spec y (Y (Max (Bounds resized)))); [| reflexivity].
    rewrite IH by lia. reflexivity.
Qed.

(** Every message of the row loop reports the total it was given and a
    count of rows between the rows done before and the rows there are. *)
Lemma rowLoop_messages `{Ext : Externals} (resized : Img.Image) (total : Z)
      (chan : bool) (fuel : nat) (y : Z) (sb : string) (row : Z)
      (msg : progressMsg) :
  In msg (snd (rowLoop resized total chan fuel y sb row)) ->
  totalRows msg = total /\
  y < Y (Max (Bounds resized)) /\
  row < rowsComplete msg <= row + (Y (Max (Bounds resized)) - y + 1) / 2.
Proof.
  revert y sb row. induction fuel as [| fuel IH]; intros y sb row Hin;
    [destruct Hin |].
  cbn [rowLoop] in Hin.
  destruct (Z.ltb_spec y (Y (Max (Bounds resized)))) as [Hy | Hy];
    [| destruct Hin].
  set (maxY := Y (Max (Bounds resized))) in *.
  assert (Hdiv : (maxY - (y + 2) + 1) / 2 = (maxY - y + 1) / 2 - 1).
  { replace (maxY - (y + 2) + 1) with (maxY - y + 1 + (-1) * 2) by lia.
    rewrite Z.div_add by lia. lia. }
  assert (Hpos : 1 <= (maxY - y + 1) / 2).
  { apply Z.div_le_lower_bound; lia. }
  destruct (rowLoop resized total chan fuel (y + 2) _ (row + 1))
    as [text later] eqn:E.
  cbn [snd] in Hin. apply in_app_or in Hin. destruct Hin as [Hin | Hin].
  - destruct (chan && _); [| destruct Hin].
    destruct Hin as [<- | []]. cbn [totalRows rowsComplete].
    split; [reflexivity |]. split; [exact Hy |]. lia.
  - specialize (IH (y + 2) (sb ++ renderRow resized y ++ newline)%string
                   (row + 1)).
    rewrite E in IH. cbn [snd] in IH.
    destruct (IH Hin) as (Ht & _ & Hr).
    split; [exact Ht |]. split; [exact Hy |]. rewrite Hdiv in Hr. lia.
Qed.

(** The completed-row count of a progress message never exceeds its total
    row count. *)
Lemma renderImageHalfBlock_messages `{Ext : Externals} (m : model)
      (img : Img.Image) (chan : bool) (msg : progressMsg) :
  In msg (snd (renderImageHalfBlock m img chan)) ->
  0 < rowsComplete msg <= totalRows msg.
Proof.
  unfold renderImageHalfBlock.
  destruct (calculateImageSize m img) as [w h].
  set (resized := resize_Lanczos3 (uint w) (uint h) img).
  intros Hin. apply rowLoop_messages in Hin.
  destruct Hin as (Ht & Hy & Hr). rewrite Ht.
  rewrite Z.quot_div_nonneg by lia. lia.
Qed.

(** The text is complete with the fuel [renderImageHalfBlock] gives the
    loop. *)
Lemma renderImageHalfBlock_fuel `{Ext : Externals} (m : model)
      (img : Img.Image) (chan : bool) (extra : nat) :
  let resized :=
    resize_Lanczos3 (uint (fst (calculateImageSize m img)))
                    (uint (snd (calculateImageSize m img))) img in
  let bounds := Bounds resized in
  rowLoop resized (Z.quot (Y (Max bounds) - Y (Min bounds) + 1) 2) chan
          (Z.to_nat (Y (Max bounds) - Y (Min bounds)) + extra)
          (Y (Min bounds)) EmptyString 0
  = renderImageHalfBlock m img chan.
Proof.
  intros resized bounds. unfold renderImageHalfBlock.
  destruct (calculateImageSize m img) as [w h]. cbn [fst snd] in *.
  apply rowLoop_fuel. fold resized. fold bounds. lia.
Qed.

(* --------------------------------------------------------------------- *)
(** ** The invariant of the running program *)

Lemma length_zero_nil {A : Type} (l : list A) :
  len l <= 0 -> l = [].
Proof. destruct l; [reflexivity |]. unfold len. cbn. lia. Qed.

(** Stepping forward and backward stays inside the frames. *)
Lemma next_index (cf n : Z) :
  0 <= cf < n -> n < 2 ^ 62 ->
  0 <= Z.rem (int (cf + 1)) n < n.
Proof.
  intros Hc Hn. change (2 ^ 62) with 4611686018427387904 in Hn.
  rewrite int_small by (unfold minInt, maxInt; lia).
  rewrite Z.rem_mod_nonneg by lia. apply Z.mod_pos_bound. lia.
Qed.

Lemma previous_index (cf n : Z) :
  0 <= cf < n -> n < 2 ^ 62 ->
  0 <= Z.rem (int (int (cf - 1) + n)) n < n.
Proof.
  intros Hc Hn. change (2 ^ 62) with 4611686018427387904 in Hn.
  rewrite (int_small (cf - 1)) by (unfold minInt, maxInt; lia).
  rewrite int_small by (unfold minInt, maxInt; lia).
  rewrite Z.rem_mod_nonneg by lia. apply Z.mod_pos_bound. lia.
Qed.

Lemma nextFrame_spawns_nothing (m : model) : spawn (nextFrame m) = 0%nat.
Proof. unfold nextFrame. destruct (_ || _); reflexivity. Qed.

(** The index of the current frame, once the frames are there. *)
Lemma current_in_frames (g : Gif.GIF) (frames : list string) (cf : Z) :
  frames = [] \/ List.length frames = List.length (Image g) ->
  cf = 0 \/ 0 <= cf < len (Image g) ->
  frames <> [] -> 0 <= cf < len frames.
Proof.
  intros [-> | Hl] Hc Hne; [congruence |].
  unfold len in *. rewrite Hl.
  destruct Hc as [-> | Hc]; [| exact Hc].
  destruct frames as [| f fs]; [congruence |]. cbn in Hl. lia.
Qed.

Ltac program_ok :=
  unfold programOK, invariant, deliver in *;
  cbn [mdl workers completed fst snd spawn
       GIF Frames CurrentFrame Width Height Paused ShowHelp Ready Loading
       LoadingFrame LoadingRows TotalRows
       set_Frames set_CurrentFrame set_Size set_Paused set_ShowHelp
       set_Ready set_Loading set_LoadingView] in *.

Ltac settle :=
  repeat match goal with |- _ /\ _ => split end;
  try solve
      [ assumption | reflexivity | discriminate | lia | congruence | tauto
      | intros; lia | intros; discriminate | intros; congruence
      | intros [? | ?]; first [lia | discriminate | congruence]
      | split; intros; first [lia | assumption | discriminate | congruence]
      | left; reflexivity | left; assumption | right; assumption ].

Lemma start_OK (g : Gif.GIF) : programOK g (start g).
Proof.
  unfold start, Init. program_ok.
  repeat match goal with |- _ /\ _ => split end;
    try reflexivity; try discriminate; try tauto; try lia; auto.
Qed.

Section Preservation.

Context `{Ext : Externals}.
Variable g : Gif.GIF.
Hypothesis Hcount : frameCountOK g.

(** A step through the frames keeps the program in order. *)
Lemma moved_OK (p : Program) (cf : Z) (paused : bool) :
  programOK g p ->
  0 < len (Frames (mdl p)) ->
  0 <= cf < len (Frames (mdl p)) ->
  programOK g
    (mkProgram (set_CurrentFrame (set_Paused (mdl p) paused) cf)
               (workers p) (completed p)).
Proof.
  intros (HG & (I1 & I2 & I3) & W1 & W2 & R & F1 & F2 & C) Hpos Hcf.
  program_ok.
  assert (Hlen : List.length (Frames (mdl p)) = List.length (Image g)).
  { destruct F2 as [E | E]; [| exact E].
    rewrite E in Hpos. cbn in Hpos. lia. }
  repeat match goal with |- _ /\ _ => split end; auto.
  right. unfold len in *. rewrite <- Hlen. exact Hcf.
Qed.

Lemma handleKeyPress_OK (p : Program) (key : string) :
  programOK g p -> programOK g (deliver p (KeyMsg key)).
Proof.
  intros HP.
  pose proof HP as (HG & (I1 & I2 & I3) & W1 & W2 & R & F1 & F2 & C).
  unfold deliver, Update, handleKeyPress.
  destruct (key =? "space")%string.
  { cbn [Paused Ready set_Paused].
    destruct (negb (negb (Paused (mdl p))) && Ready (mdl p));
      cbn [fst snd]; rewrite ?nextFrame_spawns_nothing; cbn [spawn];
      rewrite Nat.add_0_r; program_ok; auto 10. }
  destruct (key =? "?")%string.
  { cbn [fst snd spawn]. rewrite Nat.add_0_r. program_ok. auto 10. }
  destruct ((key =? "n")%string || (key =? "right")%string).
  { destruct (Z.ltb_spec 0 (len (Frames (mdl p)))) as [Hpos | Hpos];
      cbn [fst snd spawn]; rewrite Nat.add_0_r;
      [| destruct p; exact HP].
    cbn [Frames CurrentFrame set_Paused].
    apply moved_OK; [exact HP | exact Hpos |].
    assert (Hne : Frames (mdl p) <> []) by (intros E; rewrite E in Hpos; cbn in Hpos; lia).
    apply next_index; [apply I2; exact Hne |].
    unfold frameCountOK in Hcount.
    destruct F2 as [E | E]; [congruence |]. unfold len in *. rewrite E. exact Hcount. }
  destruct ((key =? "p")%string || (key =? "left")%string).
  { destruct (Z.ltb_spec 0 (len (Frames (mdl p)))) as [Hpos | Hpos];
      cbn [fst snd spawn]; rewrite Nat.add_0_r;
      [| destruct p; exact HP].
    cbn [Frames CurrentFrame set_Paused].
    apply moved_OK; [exact HP | exact Hpos |].
    assert (Hne : Frames (mdl p) <> []) by (intros E; rewrite E in Hpos; cbn in Hpos; lia).
    apply previous_index; [apply I2; exact Hne |].
    unfold frameCountOK in Hcount.
    destruct F2 as [E | E]; [congruence |]. unfold len in *. rewrite E. exact Hcount. }
  destruct ((key =? "q")%string || (key =? "ctrl+c")%string);
    cbn [fst snd spawn]; rewrite Nat.add_0_r; destruct p; exact HP.
Qed.

Lemma handleFrameAdvance_OK (p : Program) :
  programOK g p -> programOK g (deliver p frameMsg).
Proof.
  intros HP.
  pose proof HP as (HG & (I1 & I2 & I3) & W1 & W2 & R & F1 & F2 & C).
  unfold deliver, Update, handleFrameAdvance.
  destruct (negb (Paused (mdl p)) && Ready (mdl p)); cbn [andb];
    [| cbn [fst snd spawn]; rewrite Nat.add_0_r; destruct p; exact HP].
  destruct (Z.ltb_spec 0 (len (Frames (mdl p)))) as [Hpos | Hpos];
    cbn [fst snd]; rewrite ?nextFrame_spawns_nothing; cbn [spawn];
    rewrite Nat.add_0_r; [| destruct p; exact HP].
  assert (Hne : Frames (mdl p) <> [])
    by (intros E; rewrite E in Hpos; cbn in Hpos; lia).
  assert (Hidx : 0 <= Z.rem (int (CurrentFrame (mdl p) + 1))
                             (len (Frames (mdl p)))
                 < len (Frames (mdl p))).
  { apply next_index; [apply I2; exact Hne |].
    unfold frameCountOK in Hcount.
    destruct F2 as [E | E]; [congruence |].
    unfold len in *. rewrite E. exact Hcount. }
  pose proof (moved_OK p _ (Paused (mdl p)) HP Hpos Hidx) as H.
  destruct p as [m w c]. destruct m. exact H.
Qed.

Lemma handleWindowResize_OK (p : Program) (width height : Z) :
  programOK g p -> programOK g (deliver p (WindowSizeMsg width height)).
Proof.
  intros HP.
  pose proof HP as (HG & (I1 & I2 & I3) & W1 & W2 & R & F1 & F2 & C).
  unfold deliver, Update, handleWindowResize.
  cbn [Width Height set_Size Loading].
  destruct ((Width (mdl p) =? 0) || (Height (mdl p) =? 0));
    [cbn [fst snd spawn]; rewrite Nat.add_0_r; program_ok; auto 10 |].
  destruct ((Width (mdl p) =? width) && (Height (mdl p) =? height));
    [cbn [fst snd spawn]; rewrite Nat.add_0_r; program_ok; auto 10 |].
  destruct (Loading (mdl p)) eqn:HL;
    [cbn [fst snd spawn]; rewrite Nat.add_0_r; program_ok; auto 10 |].
  cbn [fst snd spawn]. program_ok.
  assert (Hidle : (workers p + completed p = 0)%nat).
  { destruct (Nat.eq_dec (workers p + completed p) 1) as [E | E];
      [apply W2 in E; discriminate | lia]. }
  settle.
Qed.

Lemma handleProgress_OK (p : Program) (m0 : model) (img : Img.Image)
      (msg : progressMsg) :
  In msg (snd (renderImageHalfBlock m0 img true)) ->
  programOK g p -> programOK g (deliver p (progress msg)).
Proof.
  intros Hin HP.
  pose proof HP as (HG & (I1 & I2 & I3) & W1 & W2 & R & F1 & F2 & C).
  apply renderImageHalfBlock_messages in Hin.
  unfold deliver, Update, handleProgress.
  destruct (Loading (mdl p) && negb (Ready (mdl p)));
    cbn [fst snd spawn]; rewrite Nat.add_0_r;
    [| destruct p; exact HP].
  program_ok. settle.
Qed.

Lemma worker_done_OK (p : Program) (width height : Z) (m' : model)
      (sent : list progressMsg) :
  (0 < workers p)%nat ->
  ProcessGIF (set_Size (mdl p) width height)
    = Some (m', sent, processingCompleteMsg) ->
  programOK g p ->
  programOK g (mkProgram (set_Frames (mdl p) (Frames m'))
                         (workers p - 1) (S (completed p))).
Proof.
  intros Hw Hrun HP.
  pose proof HP as (HG & (I1 & I2 & I3) & W1 & W2 & R & F1 & F2 & C).
  apply ProcessGIF_length in Hrun. destruct Hrun as [Hlen _].
  cbn [GIF set_Size] in Hlen. rewrite HG in Hlen.
  program_ok.
  assert (HL : Loading (mdl p) = true) by (apply W2; lia).
  settle.
  apply (current_in_frames g); auto.
Qed.

Lemma handleProcessingComplete_OK (p : Program) :
  (0 < completed p)%nat ->
  programOK g p ->
  programOK g (deliver (mkProgram (mdl p) (workers p) (completed p - 1))
                       processingCompleteMsg).
Proof.
  intros Hc HP.
  pose proof HP as (HG & (I1 & I2 & I3) & W1 & W2 & R & F1 & F2 & C).
  unfold deliver, Update, handleProcessingComplete.
  cbn [mdl workers completed Paused set_Ready set_Loading set_CurrentFrame].
  assert (Hlen : List.length (Frames (mdl p)) = List.length (Image g))
    by (apply F1; left; exact Hc).
  destruct (negb (Paused (mdl p)));
    cbn [fst snd]; rewrite ?nextFrame_spawns_nothing; cbn [spawn];
    rewrite Nat.add_0_r; program_ok; settle;
    try (rewrite HG; intros _; exact Hlen);
    try (intros Hne; apply (current_in_frames g); auto).
Qed.

(** Every step of the program keeps it in order. *)
Lemma step_OK (p q : Program) : programOK g p -> step p q -> programOK g q.
Proof.
  intros HP Hs. destruct Hs as [p msg Hm | p m0 img msg Hin
                               | p width height m' sent Hw Hrun | p Hc].
  - destruct msg as [key | | pm | | width height]; try discriminate.
    + apply handleKeyPress_OK; exact HP.
    + apply handleFrameAdvance_OK; exact HP.
    + apply handleWindowResize_OK; exact HP.
  - eapply handleProgress_OK; eassumption.
  - eapply worker_done_OK; eassumption.
  - apply handleProcessingComplete_OK; assumption.
Qed.

Lemma reachable_OK (p : Program) : reachable g p -> programOK g p.
Proof.
  induction 1 as [| p q _ IH Hs]; [apply start_OK |].
  eapply step_OK; eassumption.
Qed.

End Preservation.

(** C8.  In every state the program reaches, and after every handler run
    from there (a key, a tick, a resize, a progress message of the
    renderer, the completion message of the worker that has stored its
    frames), the invariant of the data model holds: once ready the frame
    cache is as long as the GIF has frames; when the cache is not empty
    the current frame is an index into it; while loading the completed-row
    count is at most the total-row count. *)
Theorem handlers_preserve_invariant `{Ext : Externals} (g : Gif.GIF)
        (p q : Program) :
  frameCountOK g ->
  reachable g p ->
  step p q ->
  invariant (mdl p) /\ invariant (mdl q).
Proof.
  intros Hcount Hreach Hstep.
  pose proof (reachable_OK g Hcount p Hreach) as Hp.
  pose proof (step_OK g Hcount p q Hp Hstep) as Hq.
  destruct Hp as (_ & Ip & _), Hq as (_ & Iq & _).
  split; assumption.
Qed.

Lemma handlers_preserve_invariant_witness :
  invariant (mdl Sample.ready) /\ invariant (mdl Sample.steppedBack) /\
  Ready (mdl Sample.steppedBack) = true /\
  CurrentFrame (mdl Sample.steppedBack) = 2.
Proof.
  destruct sample_run_reachable as (Hreach & _ & _ & Hstep).
  destruct (@handlers_preserve_invariant Sample.plainExternals
              Sample.restoreBackgroundGIF Sample.ready Sample.steppedBack)
    as [H3 H4].
  - unfold frameCountOK. vm_compute. reflexivity.
  - exact Hreach.
  - exact Hstep.
  - split; [exact H3 |]. split; [exact H4 |].
    split; vm_compute; reflexivity.
Defined.

(** At most one pipeline is running or waiting to be acknowledged, in
    every state the program reaches. *)
Lemma one_pipeline_at_a_time `{Ext : Externals} (g : Gif.GIF) (p : Program) :
  frameCountOK g ->
  reachable g p ->
  (workers p + completed p <= 1)%nat.
Proof.
  intros Hcount Hreach.
  pose proof (reachable_OK g Hcount p Hreach) as (_ & _ & W1 & _).
  exact W1.
Qed.


(* ===================================================================== *)
(** * Further properties of the code *)

(* --------------------------------------------------------------------- *)
(** ** Compositing one pixel *)

(** The widened channel of a [color.RGBA] value. *)
Lemma widen_byte (c : Z) :
  0 <= c < 256 -> Z.lor c (Z.shiftl c 8) = c * 257.
Proof.
  intros Hc. rewrite Z.shiftl_mul_pow2 by lia. change (2 ^ 8) with 256.
  assert (Hland : Z.land c (c * 256) = 0).
  { apply Z.bits_inj'. intros n Hn. rewrite Z.land_spec, Z.bits_0.
    destruct (Z.lt_ge_cases n 8) as [Hlt | Hge].
    - change 256 with (2 ^ 8). rewrite Z.mul_pow2_bits_low by lia.
      apply andb_false_r.
    - replace (Z.testbit c n) with false; [reflexivity |].
      symmetry. destruct (Z.eq_dec c 0) as [-> | Hz]; [apply Z.bits_0 |].
      apply Z.bits_above_log2; [lia |].
      assert (Z.log2 c < 8) by (apply Z.log2_lt_pow2; lia). lia. }
  rewrite <- Z.lxor_lor by exact Hland.
  rewrite <- Z.add_nocarry_lxor by exact Hland. lia.
Qed.

(** "Over" with a fully transparent source pixel keeps the destination;
    with an opaque one it stores the source. *)
Lemma overChannel_transparent (d : Z) :
  0 <= d < 256 -> overChannel d 0 0 = d.
Proof.
  intros Hd. unfold overChannel, uint32, uint16, uint8, m16.
  change (0 mod 2 ^ 16) with 0. rewrite Z.sub_0_r, Z.add_0_r.
  change (65535 * 257) with 16842495.
  change (2 ^ 32) with 4294967296. change (2 ^ 8) with 256.
  rewrite (Z.mod_small 16842495) by lia.
  rewrite (Z.mod_small (d * 16842495)) by lia.
  replace (d * 16842495) with (d * 257 * 65535) by lia.
  rewrite Z.div_mul by lia.
  rewrite (Z.mod_small (d * 257)) by lia.
  rewrite Z.shiftr_div_pow2 by lia. change (2 ^ 8) with 256.
  replace (d * 257) with (d + d * 256) by lia.
  rewrite Z.div_add by lia. rewrite (Z.div_small d 256) by lia.
  rewrite Z.add_0_l. apply Z.mod_small. lia.
Qed.

Lemma overChannel_opaque (d c : Z) :
  0 <= c < 256 -> overChannel d (c * 257) 65535 = c.
Proof.
  intros Hc. unfold overChannel, uint32, uint16, uint8, m16.
  change (65535 mod 2 ^ 16) with 65535. rewrite Z.sub_diag.
  change (0 * 257) with 0. change (0 mod 2 ^ 32) with 0.
  rewrite Z.mul_0_r. change (0 mod 2 ^ 32 / 65535) with 0. rewrite Z.add_0_l.
  change (2 ^ 32) with 4294967296. change (2 ^ 16) with 65536.
  change (2 ^ 8) with 256.
  rewrite (Z.mod_small (c * 257) 65536) by lia.
  rewrite (Z.mod_small (c * 257) 4294967296) by lia.
  rewrite Z.shiftr_div_pow2 by lia. change (2 ^ 8) with 256.
  replace (c * 257) with (c + c * 256) by lia.
  rewrite Z.div_add by lia. rewrite (Z.div_small c 256) by lia.
  rewrite Z.add_0_l. apply Z.mod_small. lia.
Qed.

(* --------------------------------------------------------------------- *)
(** ** Sources and loading *)

Lemma prefix_app (p s : string) :
  String.prefix p s = true <-> exists rest, s = (p ++ rest)%string.
Proof.
  revert s. induction p as [| a p IH]; intros s.
  - split; [intros _; exists s; reflexivity |].
    intros _. destruct s; reflexivity.
  - destruct s as [| b s]; cbn [String.prefix].
    + split; [discriminate | intros [rest H]; discriminate].
    + destruct (Ascii.ascii_dec a b) as [-> | Hne].
      * rewrite IH. split; intros [rest H]; exists rest.
        -- cbn. rewrite H. reflexivity.
        -- cbn in H. injection H as H. exact H.
      * split; [discriminate |].
        intros [rest H]. cbn in H. injection H as H _. congruence.
Qed.

(** X1.  A source is a URL exactly when it starts with "http://" or with
    "https://" (in lower case); everything else, the empty string too, is
    a path. *)
Theorem isURL_iff_scheme (s : string) :
  isURL s = true <->
  exists rest, s = ("http://" ++ rest)%string \/ s = ("https://" ++ rest)%string.
Proof.
  unfold isURL. rewrite orb_true_iff, !prefix_app.
  split.
  - intros [[rest H] | [rest H]]; exists rest; [left | right]; exact H.
  - intros [rest [H | H]]; [left | right]; exists rest; exact H.
Qed.

(** X2.  [loadGIF] returns either a GIF and no error, or an error and no
    GIF; never both and never neither. *)
Theorem loadGIF_gif_or_error `{W : World} (source : string) :
  (exists g, loadGIF source = (Some g, None)) \/
  (exists e, loadGIF source = (None, Some e)).
Proof.
  unfold loadGIF, decodeOrFail, wrapError.
  destruct (isURL source).
  - destruct (http_Get source) as [resp | e]; [| right; eexists; reflexivity].
    destruct (negb (StatusCode resp =? StatusOK));
      [right; eexists; reflexivity |].
    destruct (gif_DecodeAll (Body resp)) as [g | e];
      [left | right]; eexists; reflexivity.
  - destruct (os_Open source) as [file | e]; [| right; eexists; reflexivity].
    destruct (gif_DecodeAll file) as [g | e];
      [left | right]; eexists; reflexivity.
Qed.

(** X3.  [LoadFromSource] delivers the GIF [loadGIF] delivers, for every
    source; it reports no error where [loadGIF] reports none; and it
    returns neither a GIF nor an error exactly when the source is a URL
    that is answered with a status other than 200. *)
Theorem LoadFromSource_against_loadGIF `{W : World} (source : string) :
  fst (Internal.LoadFromSource source) = fst (loadGIF source) /\
  (snd (loadGIF source) = None ->
   snd (Internal.LoadFromSource source) = None) /\
  (Internal.LoadFromSource source = (None, None) <->
   isURL source = true /\
   exists resp, http_Get source = Ok resp /\ StatusCode resp <> StatusOK).
Proof.
  unfold Internal.LoadFromSource, loadGIF, decodeOrFail, wrapError.
  change (Internal.isURL source) with (isURL source).
  destruct (isURL source) eqn:Hu.
  - destruct (http_Get source) as [resp | e] eqn:Hg; cbn [errorOf].
    + destruct (Z.eqb_spec (StatusCode resp) StatusOK) as [Hs | Hs];
        cbn [negb].
      * destruct (gif_DecodeAll (Body resp)) as [g | e]; cbn [errorOf fst snd];
          (split; [reflexivity |]); (split; [tauto || discriminate |]);
          split; try discriminate;
          intros [_ (resp' & E & Hne)]; injection E as <-; contradiction.
      * cbn [fst snd]. split; [reflexivity |]. split; [discriminate |].
        split; [| reflexivity].
        intros _. split; [reflexivity |]. exists resp. split; [reflexivity | exact Hs].
    + cbn [fst snd]. split; [reflexivity |]. split; [discriminate |].
      split; [discriminate |]. intros [_ (resp' & E & _)]. discriminate.
  - destruct (os_Open source) as [file | e]; cbn [errorOf fst snd].
    + destruct (gif_DecodeAll file) as [g | e]; cbn [errorOf fst snd];
        (split; [reflexivity |]); (split; [tauto || discriminate |]);
        split; try discriminate; intros [E _]; discriminate.
    + split; [reflexivity |]. split; [discriminate |].
      split; [discriminate |]. intros [E _]. discriminate.
Qed.

(** X4.  A source that is not a URL is read from the disk only: the
    result of [loadGIF] is the same in two worlds that agree on the files
    and on the decoder, whatever their networks answer. *)
Theorem loadGIF_path_ignores_network (W1 W2 : World) (source : string) :
  isURL source = false ->
  @os_Open W1 source = @os_Open W2 source ->
  (forall bytes, @gif_DecodeAll W1 bytes = @gif_DecodeAll W2 bytes) ->
  @loadGIF W1 source = @loadGIF W2 source.
Proof.
  intros Hu Ho Hd. unfold loadGIF, decodeOrFail. rewrite Hu, Ho.
  destruct (@os_Open W2 source) as [file | e]; [| reflexivity].
  rewrite Hd. reflexivity.
Qed.

Lemma loadGIF_path_ignores_network_witness :
  @loadGIF Sample.offline "anim.gif" = @loadGIF Sample.online "anim.gif" /\
  @loadGIF Sample.online "anim.gif"
    = (Some Sample.restoreBackgroundGIF, None).
Proof.
  split; [| reflexivity].
  apply (loadGIF_path_ignores_network Sample.offline Sample.online "anim.gif").
  - reflexivity.
  - reflexivity.
  - intros bytes. reflexivity.
Defined.

(** X5.  [Run] either returns an error, exactly when [loadGIF] reports
    one, or starts the viewer on the GIF that was loaded: the program is
    then loading, not ready, with one pipeline at work and an empty frame
    cache.  It never starts a viewer without a GIF. *)
Theorem Run_error_or_started `{W : World} (source : string) :
  (exists e, loadGIF source = (None, Some e) /\
             Run source = inl (wrapError "loading GIF" e)) \/
  (exists g, loadGIF source = (Some g, None) /\
             Run source = inr (Some (start g)) /\
             GIF (mdl (start g)) = g /\
             Loading (mdl (start g)) = true /\
             Ready (mdl (start g)) = false /\
             Frames (mdl (start g)) = [] /\
             (workers (start g), completed (start g)) = (1%nat, 0%nat)).
Proof.
  unfold Run.
  destruct (loadGIF source) as [[g |] [e |]] eqn:H.
  - exfalso. revert H. unfold loadGIF, decodeOrFail, wrapError.
    destruct (isURL source).
    + destruct (http_Get source) as [resp | e']; [| discriminate].
      destruct (negb (StatusCode resp =? StatusOK)); [discriminate |].
      destruct (gif_DecodeAll (Body resp)); discriminate.
    + destruct (os_Open source) as [file | e']; [| discriminate].
      destruct (gif_DecodeAll file); discriminate.
  - right. exists g. repeat (split; [reflexivity |]). reflexivity.
  - left. exists e. split; reflexivity.
  - exfalso. revert H. unfold loadGIF, decodeOrFail, wrapError.
    destruct (isURL source).
    + destruct (http_Get source) as [resp | e']; [| discriminate].
      destruct (negb (StatusCode resp =? StatusOK)); [discriminate |].
      destruct (gif_DecodeAll (Body resp)); discriminate.
    + destruct (os_Open source) as [file | e']; [| discriminate].
      destruct (gif_DecodeAll file); discriminate.
Qed.

(* --------------------------------------------------------------------- *)
(** ** Keys, ticks and resizes *)

(** X6.  The tick scheduled for the current frame lasts ten milliseconds
    per hundredth of a second of the frame's delay, and 100 ms when the
    delay is zero; it is never zero.  When the current frame has no entry
    in the delay table nothing is scheduled. *)
Theorem nextFrame_duration (m : model) :
  (forall d,
      0 <= CurrentFrame m ->
      nth_error (Delay (GIF m)) (Z.to_nat (CurrentFrame m)) = Some d ->
      0 <= d <= 65535 ->
      exists ns, nextFrame m = Some (TickCmd ns) /\
                 ns = (if d =? 0 then 100 else d * 10) * 1000000 /\
                 0 < ns) /\
  (CurrentFrame m < 0 \/ len (Delay (GIF m)) <= CurrentFrame m ->
   nextFrame m = None).
Proof.
  split.
  - intros d Hc Hn Hd. unfold nextFrame.
    assert (Hlt : (Z.to_nat (CurrentFrame m) < List.length (Delay (GIF m)))%nat)
      by (apply nth_error_Some; congruence).
    destruct (Z.ltb_spec (CurrentFrame m) 0); [lia |].
    destruct (Z.leb_spec (len (Delay (GIF m))) (CurrentFrame m));
      [unfold len in *; lia |].
    cbn [orb]. rewrite (nth_error_nth _ _ 0 Hn).
    destruct (Z.eqb_spec d 0) as [-> | Hz].
    + eexists. split; [reflexivity |]. split; [reflexivity | reflexivity].
    + eexists. split; [reflexivity |].
      rewrite (int_small (d * 10)) by (unfold minInt, maxInt; lia).
      rewrite int_small by (unfold minInt, maxInt; lia).
      split; lia.
  - intros H. unfold nextFrame.
    destruct H as [H | H].
    + apply Z.ltb_lt in H. rewrite H. reflexivity.
    + apply Z.leb_le in H. rewrite H. rewrite orb_true_r. reflexivity.
Qed.

Lemma nextFrame_duration_witness :
  exists ns, nextFrame Sample.readyModel = Some (TickCmd ns) /\
             ns = 300000000 /\ 0 < ns.
Proof.
  destruct (nextFrame_duration Sample.readyModel) as [H _].
  destruct (H 30) as (ns & Hn & He & Hp).
  - vm_compute. discriminate.
  - reflexivity.
  - lia.
  - exists ns. split; [exact Hn |]. split; [rewrite He; reflexivity | exact Hp].
Defined.

Lemma back_and_forth (cf n : Z) :
  0 <= cf < n -> n < 2 ^ 62 ->
  Z.rem (int (int (Z.rem (int (cf + 1)) n - 1) + n)) n = cf /\
  Z.rem (int (Z.rem (int (int (cf - 1) + n)) n + 1)) n = cf.
Proof.
  intros Hc Hn. change (2 ^ 62) with 4611686018427387904 in Hn.
  assert (Hi : forall z, - 4611686018427387904 * 2 <= z
                         <= 4611686018427387904 * 2 - 1 -> int z = z).
  { intros z Hz. apply int_small. unfold minInt, maxInt.
    change (2 ^ 63) with 9223372036854775808. lia. }
  split.
  - rewrite (Hi (cf + 1)) by lia.
    rewrite (Z.rem_mod_nonneg (cf + 1)) by lia.
    assert (Hm : 0 <= (cf + 1) mod n < n) by (apply Z.mod_pos_bound; lia).
    rewrite (Hi ((cf + 1) mod n - 1)) by lia.
    rewrite Hi by lia. rewrite Z.rem_mod_nonneg by lia.
    destruct (Z.eq_dec (cf + 1) n) as [E | E].
    + rewrite E, Z.mod_same by lia.
      replace (0 - 1 + n) with (n - 1) by lia.
      rewrite Z.mod_small by lia. lia.
    + rewrite (Z.mod_small (cf + 1)) by lia.
      replace (cf + 1 - 1 + n) with (cf + 1 * n) by lia.
      rewrite Z.mod_add by lia. apply Z.mod_small. lia.
  - rewrite (Hi (cf - 1)) by lia. rewrite (Hi (cf - 1 + n)) by lia.
    rewrite (Z.rem_mod_nonneg (cf - 1 + n)) by lia.
    assert (Hm : 0 <= (cf - 1 + n) mod n < n) by (apply Z.mod_pos_bound; lia).
    rewrite Hi by lia. rewrite Z.rem_mod_nonneg by lia.
    destruct (Z.eq_dec cf 0) as [-> | E].
    + replace (0 - 1 + n) with (n - 1) by lia.
      rewrite (Z.mod_small (n - 1)) by lia.
      replace (n - 1 + 1) with n by lia. apply Z.mod_same. lia.
    + replace (cf - 1 + n) with (cf - 1 + 1 * n) by lia.
      rewrite Z.mod_add by lia. rewrite (Z.mod_small (cf - 1)) by lia.
      replace (cf - 1 + 1) with cf by lia. apply Z.mod_small. lia.
Qed.

(** X7.  With frames in the cache and a valid current frame, "next"
    followed by "previous" shows the frame the viewer was on, and so does
    "previous" followed by "next"; the viewer is paused afterwards and
    nothing else has changed. *)
Theorem next_previous_round_trip (m : model) (k1 k2 k3 k4 : string) :
  (k1 = "n" \/ k1 = "right")%string -> (k2 = "p" \/ k2 = "left")%string ->
  (k3 = "p" \/ k3 = "left")%string -> (k4 = "n" \/ k4 = "right")%string ->
  0 <= CurrentFrame m < len (Frames m) ->
  len (Frames m) < 2 ^ 62 ->
  fst (handleKeyPress (fst (handleKeyPress m k1)) k2) = set_Paused m true /\
  fst (handleKeyPress (fst (handleKeyPress m k3)) k4) = set_Paused m true.
Proof.
  intros H1 H2 H3 H4 Hc Hn.
  destruct (back_and_forth _ _ Hc Hn) as [Hnp Hpn].
  assert (Hpos : (0 <? len (Frames m)) = true) by (apply Z.ltb_lt; lia).
  destruct m as [g fr cf w h pa sh re lo lf lr tr].
  cbn [CurrentFrame Frames] in *.
  split.
  - destruct H1 as [-> | ->], H2 as [-> | ->];
      unfold handleKeyPress; cbn; rewrite ?Hpos; cbn; rewrite ?Hpos; cbn;
      unfold set_Paused, set_CurrentFrame; cbn; rewrite Hnp; reflexivity.
  - destruct H3 as [-> | ->], H4 as [-> | ->];
      unfold handleKeyPress; cbn; rewrite ?Hpos; cbn; rewrite ?Hpos; cbn;
      unfold set_Paused, set_CurrentFrame; cbn; rewrite Hpn; reflexivity.
Qed.

Lemma next_previous_round_trip_witness :
  fst (handleKeyPress (fst (handleKeyPress Sample.readyModel "n")) "p")
  = Sample.pausedModel /\
  fst (handleKeyPress (fst (handleKeyPress Sample.readyModel "left")) "right")
  = Sample.pausedModel.
Proof.
  apply (next_previous_round_trip Sample.readyModel "n" "p" "left" "right").
  - left; reflexivity.
  - left; reflexivity.
  - right; reflexivity.
  - right; reflexivity.
  - vm_compute. split; [discriminate | reflexivity].
  - vm_compute. reflexivity.
Defined.

(** X8.  While the viewer is ready and playing, [k] ticks move the current
    frame [k] places forward around the frame cache: the frame shown is
    (current + k) modulo the number of frames, so as many ticks as there
    are frames lead back to the same frame.  The ticks change nothing
    else. *)
Theorem ticks_cycle (m : model) (k : nat) :
  Paused m = false -> Ready m = true ->
  0 <= CurrentFrame m < len (Frames m) ->
  len (Frames m) < 2 ^ 62 ->
  Nat.iter k (fun m => fst (handleFrameAdvance m)) m
  = set_CurrentFrame m
      ((CurrentFrame m + Z.of_nat k) mod len (Frames m)).
Proof.
  intros Hp Hr Hc Hn. induction k as [| k IH].
  - change (Nat.iter 0 (fun m => fst (handleFrameAdvance m)) m) with m.
    rewrite Z.add_0_r, Z.mod_small by exact Hc.
    destruct m. reflexivity.
  - rewrite Nat.iter_succ, IH. unfold handleFrameAdvance.
    cbn [Paused Ready Frames CurrentFrame set_CurrentFrame].
    rewrite Hp, Hr. cbn [negb andb].
    assert (Hpos : (0 <? len (Frames m)) = true) by (apply Z.ltb_lt; lia).
    rewrite Hpos. cbn [fst].
    set (n := len (Frames m)) in *.
    assert (Hm : 0 <= (CurrentFrame m + Z.of_nat k) mod n < n)
      by (apply Z.mod_pos_bound; lia).
    change (2 ^ 62) with 4611686018427387904 in Hn.
    rewrite int_small
      by (unfold minInt, maxInt; change (2 ^ 63) with 9223372036854775808; lia).
    rewrite Z.rem_mod_nonneg by lia.
    rewrite Z.add_mod_idemp_l by lia.
    replace (CurrentFrame m + Z.of_nat k + 1)
      with (CurrentFrame m + Z.of_nat (S k)) by lia.
    reflexivity.
Qed.

Lemma ticks_cycle_witness :
  Nat.iter 3 (fun m => fst (handleFrameAdvance m)) Sample.readyModel
  = Sample.readyModel.
Proof.
  rewrite (ticks_cycle Sample.readyModel 3).
  - reflexivity.
  - reflexivity.
  - reflexivity.
  - vm_compute. split; [discriminate | reflexivity].
  - vm_compute. reflexivity.
Defined.

(** X9.  No key starts a pipeline, and no key touches the GIF, the frame
    cache, the terminal size, or the ready and loading state; a key that
    is not bound, as well as the quit keys, leaves the whole model as it
    is. *)
Theorem keys_leave_pipeline_alone (m : model) (key : string) :
  spawn (snd (handleKeyPress m key)) = 0%nat /\
  GIF (fst (handleKeyPress m key)) = GIF m /\
  Frames (fst (handleKeyPress m key)) = Frames m /\
  (Width (fst (handleKeyPress m key)), Height (fst (handleKeyPress m key)))
  = (Width m, Height m) /\
  (Ready (fst (handleKeyPress m key)), Loading (fst (handleKeyPress m key)))
  = (Ready m, Loading m) /\
  (LoadingFrame (fst (handleKeyPress m key)),
   LoadingRows (fst (handleKeyPress m key)),
   TotalRows (fst (handleKeyPress m key)))
  = (LoadingFrame m, LoadingRows m, TotalRows m) /\
  ((key <> "space" /\ key <> "?" /\ key <> "n" /\ key <> "right" /\
    key <> "p" /\ key <> "left")%string ->
   fst (handleKeyPress m key) = m).
Proof.
  unfold handleKeyPress.
  destruct (String.eqb_spec key "space") as [E1 | E1].
  { cbn [Paused Ready set_Paused].
    destruct (negb (negb (Paused m)) && Ready m); cbn [fst snd];
      rewrite ?nextFrame_spawns_nothing;
      repeat (split; [reflexivity |]); intros (H & _); contradiction. }
  destruct (String.eqb_spec key "?") as [E2 | E2].
  { cbn [fst snd]. repeat (split; [reflexivity |]).
    intros (_ & H & _); contradiction. }
  destruct (String.eqb_spec key "n") as [E3 | E3];
    [| destruct (String.eqb_spec key "right") as [E4 | E4]];
    cbn [orb].
  1, 2: destruct (0 <? len (Frames m)); cbn [fst snd];
    repeat (split; [reflexivity |]); intros (_ & _ & H3 & H4 & _);
    contradiction.
  destruct (String.eqb_spec key "p") as [E5 | E5];
    [| destruct (String.eqb_spec key "left") as [E6 | E6]];
    cbn [orb].
  1, 2: destruct (0 <? len (Frames m)); cbn [fst snd];
    repeat (split; [reflexivity |]); intros (_ & _ & _ & _ & H5 & H6);
    contradiction.
  destruct ((key =? "q")%string || (key =? "ctrl+c")%string); cbn [fst snd];
    repeat (split; [reflexivity |]); intros _; reflexivity.
Qed.

(** X10.  A progress message that arrives when the viewer is ready, or is
    not loading, is dropped: the model stays as it is and nothing is
    scheduled.  One that arrives while the viewer loads replaces the
    loading snapshot and nothing else. *)
Theorem handleProgress_stale_dropped (m : model) (msg : progressMsg) :
  (Ready m = true \/ Loading m = false ->
   handleProgress m msg = (m, None)) /\
  (Loading m = true -> Ready m = false ->
   handleProgress m msg
   = (set_LoadingView m (partialFrame msg) (rowsComplete msg) (totalRows msg),
      None)).
Proof.
  unfold handleProgress. split.
  - intros [H | H]; rewrite H; [rewrite andb_false_r |]; reflexivity.
  - intros Hl Hr. rewrite Hl, Hr. reflexivity.
Qed.

Lemma handleProgress_stale_dropped_witness :
  handleProgress Sample.readyModel (mkProgressMsg "late" 1 1)
  = (Sample.readyModel, None) /\
  LoadingRows (fst (handleProgress Sample.loadingModel
                                   (mkProgressMsg "half" 1 2))) = 1.
Proof.
  destruct (handleProgress_stale_dropped Sample.readyModel
              (mkProgressMsg "late" 1 1)) as [H1 _].
  destruct (handleProgress_stale_dropped Sample.loadingModel
              (mkProgressMsg "half" 1 2)) as [_ H2].
  split.
  - apply H1. left; reflexivity.
  - rewrite H2; reflexivity.
Defined.

(** X11.  A resize always records the new size and never touches the GIF,
    the current frame, or the pause and help flags.  It starts a pipeline
    exactly when a size was known before, the size differs from it, and
    the viewer is not loading; the frame cache and the loading snapshot
    are then emptied and the viewer is loading and not ready.  In every
    other case only the size changes. *)
Theorem handleWindowResize_cases (m : model) (width height : Z) :
  let r := handleWindowResize m width height in
  (Width (fst r), Height (fst r)) = (width, height) /\
  (GIF (fst r), CurrentFrame (fst r), Paused (fst r), ShowHelp (fst r))
  = (GIF m, CurrentFrame m, Paused m, ShowHelp m) /\
  (snd r = Some ProcessGIFCmd <->
   Width m <> 0 /\ Height m <> 0 /\
   (Width m <> width \/ Height m <> height) /\ Loading m = false) /\
  (snd r = Some ProcessGIFCmd ->
   Frames (fst r) = [] /\
   (Ready (fst r), Loading (fst r)) = (false, true) /\
   (LoadingFrame (fst r), LoadingRows (fst r), TotalRows (fst r))
   = (EmptyString, 0, 0)) /\
  (snd r <> Some ProcessGIFCmd ->
   snd r = None /\ fst r = set_Size m width height).
Proof.
  unfold handleWindowResize. cbn [Width Height set_Size Loading].
  destruct (Z.eqb_spec (Width m) 0) as [W0 | W0];
    [cbn [orb fst snd]; repeat (split; [reflexivity |]);
     split; [split; [discriminate | tauto] |];
     split; [discriminate | intros _; split; reflexivity] |].
  destruct (Z.eqb_spec (Height m) 0) as [H0 | H0];
    [cbn [orb fst snd]; repeat (split; [reflexivity |]);
     split; [split; [discriminate | tauto] |];
     split; [discriminate | intros _; split; reflexivity] |].
  cbn [orb].
  destruct (Z.eqb_spec (Width m) width) as [Ww | Ww];
    [destruct (Z.eqb_spec (Height m) height) as [Hh | Hh] |];
    cbn [andb].
  - cbn [fst snd]. repeat (split; [reflexivity |]).
    split; [split; [discriminate | intros (_ & _ & [H | H] & _); contradiction] |].
    split; [discriminate | intros _; split; reflexivity].
  - destruct (Loading m) eqn:HL; cbn [fst snd].
    + repeat (split; [reflexivity |]).
      split; [split; [discriminate | intros (_ & _ & _ & H); discriminate] |].
      split; [discriminate | intros _; split; reflexivity].
    + repeat (split; [reflexivity |]).
      split; [split; [intros _; auto | reflexivity] |].
      split; [intros _; repeat split | intros H; contradiction H; reflexivity].
  - destruct (Loading m) eqn:HL; cbn [fst snd].
    + repeat (split; [reflexivity |]).
      split; [split; [discriminate | intros (_ & _ & _ & H); discriminate] |].
      split; [discriminate | intros _; split; reflexivity].
    + repeat (split; [reflexivity |]).
      split; [split; [intros _; auto | reflexivity] |].
      split; [intros _; repeat split | intros H; contradiction H; reflexivity].
Qed.

Lemma handleWindowResize_cases_witness :
  snd (handleWindowResize Sample.readyModel 100 50) = Some ProcessGIFCmd /\
  Frames (fst (handleWindowResize Sample.readyModel 100 50)) = [] /\
  snd (handleWindowResize Sample.loadingModel 100 50) = None.
Proof.
  pose proof (handleWindowResize_cases Sample.readyModel 100 50) as H1.
  pose proof (handleWindowResize_cases Sample.loadingModel 100 50) as H2.
  cbv zeta in H1, H2.
  destruct H1 as (_ & _ & [_ Hstart] & Hclear & _).
  destruct H2 as (_ & _ & _ & _ & Hidle).
  assert (Hcmd : snd (handleWindowResize Sample.readyModel 100 50)
                 = Some ProcessGIFCmd).
  { apply Hstart. vm_compute.
    split; [discriminate |]. split; [discriminate |].
    split; [left; discriminate | reflexivity]. }
  split; [exact Hcmd |]. split.
  - apply Hclear. exact Hcmd.
  - apply Hidle. vm_compute. discriminate.
Defined.

Lemma handleWindowResize_size (m : model) (width height : Z) :
  Width (fst (handleWindowResize m width height)) = width /\
  Height (fst (handleWindowResize m width height)) = height.
Proof.
  unfold handleWindowResize. cbn [Width Height set_Size Loading].
  destruct ((Width m =? 0) || (Height m =? 0)); [split; reflexivity |].
  destruct ((Width m =? width) && (Height m =? height)); [split; reflexivity |].
  destruct (Loading m); split; reflexivity.
Qed.

(** X12.  Handling the same resize a second time does nothing: the model
    the first handling left is returned and no command with it. *)
Theorem handleWindowResize_again (m : model) (width height : Z) :
  handleWindowResize (fst (handleWindowResize m width height)) width height
  = (fst (handleWindowResize m width height), None).
Proof.
  destruct (handleWindowResize_size m width height) as [Hw Hh].
  set (m1 := fst (handleWindowResize m width height)) in *.
  assert (Hset : set_Size m1 width height = m1).
  { rewrite <- Hw at 1. rewrite <- Hh at 1. destruct m1. reflexivity. }
  unfold handleWindowResize. cbn [Width Height set_Size Loading].
  rewrite Hset.
  destruct ((Width m1 =? 0) || (Height m1 =? 0)); [reflexivity |].
  rewrite Hw, Hh, !Z.eqb_refl. reflexivity.
Qed.

(* --------------------------------------------------------------------- *)
(** ** The running program *)

(** X13.  In every state the program reaches, at most one pipeline is
    running or waiting to be acknowledged, and there is one exactly while
    the viewer is loading; the viewer is ready exactly when it is not
    loading. *)
Theorem one_pipeline_while_loading `{Ext : Externals} (g : Gif.GIF)
        (p : Program) :
  frameCountOK g ->
  reachable g p ->
  (workers p + completed p <= 1)%nat /\
  (Loading (mdl p) = true <-> (workers p + completed p = 1)%nat) /\
  Ready (mdl p) = negb (Loading (mdl p)).
Proof.
  intros Hcount Hreach.
  pose proof (reachable_OK g Hcount p Hreach)
    as (_ & _ & W1 & W2 & R & _).
  split; [exact W1 |]. split; [exact W2 | exact R].
Qed.

Lemma one_pipeline_while_loading_witness :
  (workers Sample.ready + completed Sample.ready <= 1)%nat /\
  Ready (mdl Sample.ready) = true.
Proof.
  destruct sample_run_reachable as (Hreach & _).
  destruct (@one_pipeline_while_loading Sample.plainExternals
              Sample.restoreBackgroundGIF Sample.ready) as (H1 & _ & H3).
  - unfold frameCountOK. vm_compute. reflexivity.
  - exact Hreach.
  - split; [exact H1 |]. rewrite H3. vm_compute. reflexivity.
Defined.

(** X14.  [View] never indexes the frame cache out of range in a state
    the program reaches: it always yields a screen, and when that is the
    playback screen the viewer is ready and the frame on it is the frame
    of the cache at the current index. *)
Theorem View_never_panics `{Ext : Externals} (g : Gif.GIF) (p : Program) :
  frameCountOK g ->
  reachable g p ->
  exists screen,
    View (mdl p) = Some screen /\
    forall frame status help,
      screen = PlaybackView frame status help ->
      Ready (mdl p) = true /\
      0 <= CurrentFrame (mdl p) < len (Frames (mdl p)) /\
      nth_error (Frames (mdl p)) (Z.to_nat (CurrentFrame (mdl p)))
      = Some frame.
Proof.
  intros Hcount Hreach.
  pose proof (reachable_OK g Hcount p Hreach)
    as (_ & (_ & I2 & _) & _).
  unfold View.
  destruct (Loading (mdl p) && negb (LoadingFrame (mdl p) =? EmptyString)%string).
  { eexists. split; [reflexivity |]. intros ? ? ? H. discriminate. }
  destruct (Ready (mdl p)) eqn:HR; cbn [negb orb].
  2:{ eexists. split; [reflexivity |]. intros ? ? ? H. discriminate. }
  destruct (Z.eqb_spec (len (Frames (mdl p))) 0) as [H0 | H0].
  { eexists. split; [reflexivity |]. intros ? ? ? H. discriminate. }
  assert (Hne : Frames (mdl p) <> []).
  { intros E. rewrite E in H0. apply H0. reflexivity. }
  specialize (I2 Hne).
  unfold renderPlaybackView.
  destruct (Z.ltb_spec (CurrentFrame (mdl p)) 0); [lia |].
  destruct (Z.leb_spec (len (Frames (mdl p))) (CurrentFrame (mdl p))); [lia |].
  cbn [orb].
  destruct (nth_error (Frames (mdl p)) (Z.to_nat (CurrentFrame (mdl p))))
    as [frame |] eqn:Hn.
  - cbn [obind]. eexists. split; [reflexivity |].
    intros f s h E. injection E as <- _ _.
    split; [reflexivity |]. split; [exact I2 | reflexivity].
  - apply nth_error_None in Hn. unfold len in *. lia.
Qed.

Lemma View_never_panics_witness :
  exists screen,
    View (mdl Sample.steppedBack) = Some screen /\
    screen = PlaybackView
               (nth 2 (Frames (mdl Sample.steppedBack)) EmptyString)
               (" " ++ pauseIcon ++ " 3/3 ")%string false.
Proof.
  destruct sample_run_reachable as (Hreach & _ & _ & Hstep).
  destruct (@View_never_panics Sample.plainExternals
              Sample.restoreBackgroundGIF Sample.steppedBack)
    as (screen & Hv & _).
  - unfold frameCountOK. vm_compute. reflexivity.
  - apply (@reach_step Sample.plainExternals _ Sample.ready);
      [exact Hreach | exact Hstep].
  - exists screen. split; [exact Hv |].
    vm_compute in Hv. injection Hv as <-. vm_compute. reflexivity.
Defined.

(** X15.  Playback never stalls: in a state the program reaches in which
    the viewer is ready and playing a GIF that has frames and a delay for
    each of them, a tick moves to another valid frame and schedules the
    next tick. *)
Theorem tick_schedules_next `{Ext : Externals} (g : Gif.GIF) (p : Program) :
  frameCountOK g ->
  (List.length (Image g) <= List.length (Delay g))%nat ->
  Image g <> [] ->
  reachable g p ->
  Ready (mdl p) = true -> Paused (mdl p) = false ->
  exists ns,
    snd (handleFrameAdvance (mdl p)) = Some (TickCmd ns) /\
    0 <= CurrentFrame (fst (handleFrameAdvance (mdl p)))
      < len (Frames (mdl p)) /\
    Frames (fst (handleFrameAdvance (mdl p))) = Frames (mdl p).
Proof.
  intros Hcount Hdel Hne Hreach HR HP.
  pose proof (reachable_OK g Hcount p Hreach)
    as (HG & (I1 & I2 & _) & _ & _ & _ & F1 & _ & _).
  assert (Hlen : List.length (Frames (mdl p)) = List.length (Image g))
    by (apply F1; right; exact HR).
  assert (Hfr : Frames (mdl p) <> []).
  { intros E. rewrite E in Hlen. destruct (Image g); [congruence | discriminate]. }
  specialize (I2 Hfr).
  unfold frameCountOK in Hcount.
  assert (Hn : len (Frames (mdl p)) < 2 ^ 62)
    by (unfold len in *; rewrite Hlen; exact Hcount).
  pose proof (next_index _ _ I2 Hn) as Hidx.
  unfold handleFrameAdvance. rewrite HP, HR. cbn [negb andb].
  assert (Hpos : (0 <? len (Frames (mdl p))) = true) by (apply Z.ltb_lt; lia).
  rewrite Hpos. cbn [fst snd Frames CurrentFrame set_CurrentFrame].
  unfold nextFrame. cbn [CurrentFrame GIF set_CurrentFrame]. rewrite HG.
  set (cf := Z.rem (int (CurrentFrame (mdl p) + 1)) (len (Frames (mdl p)))) in *.
  destruct (Z.ltb_spec cf 0); [lia |].
  destruct (Z.leb_spec (len (Delay g)) cf); [unfold len in *; lia |].
  cbn [orb]. eexists. split; [reflexivity |]. split; [exact Hidx | reflexivity].
Qed.

Lemma tick_schedules_next_witness :
  exists ns,
    snd (handleFrameAdvance (mdl Sample.ready)) = Some (TickCmd ns) /\
    CurrentFrame (fst (handleFrameAdvance (mdl Sample.ready))) = 1.
Proof.
  destruct sample_run_reachable as (Hreach & _).
  destruct (@tick_schedules_next Sample.plainExternals
              Sample.restoreBackgroundGIF Sample.ready)
    as (ns & Hn & _ & _).
  - unfold frameCountOK. vm_compute. reflexivity.
  - vm_compute. lia.
  - discriminate.
  - exact Hreach.
  - vm_compute. reflexivity.
  - vm_compute. reflexivity.
  - exists ns. split; [exact Hn |]. vm_compute. reflexivity.
Defined.

(* --------------------------------------------------------------------- *)
(** ** The frame loop: panics, progress, pixels *)




Lemma rowLoop_silent `{Ext : Externals} (resized : Img.Image) (total : Z)
      (fuel : nat) (y : Z) (sb : string) (row : Z) :
  snd (rowLoop resized total false fuel y sb row) = [].
Proof.
  revert y sb row. induction fuel as [| fuel IH]; intros y sb row;
    [reflexivity |].
  cbn [rowLoop]. destruct (y <? Y (Max (Bounds resized))); [| reflexivity].
  cbn [andb app].
  specialize (IH (y + 2) (sb ++ renderRow resized y ++ newline)%string
                 (row + 1)).
  destruct (rowLoop resized total false fuel (y + 2) _ (row + 1)).
  exact IH.
Qed.

Lemma frameLoop_silent `{Ext : Externals} (m : model) (rest : list Paletted)
      (i : nat) (c : Canvas) (r : list string * list progressMsg) :
  i <> 0%nat -> frameLoop m rest i c = Some r -> snd r = [].
Proof.
  revert i c r. induction rest as [| img rest IH]; intros i c r Hi H;
    cbn [frameLoop] in H.
  - injection H as <-. reflexivity.
  - destruct (savePrevious (GIF m) i c) as [c1 |]; cbn [obind] in H;
      [| discriminate].
    destruct (applyDisposal (GIF m) i c1) as [c2 |]; cbn [obind] in H;
      [| discriminate].
    destruct (renderImageHalfBlock m _ (Nat.eqb i 0)) as [frame sent] eqn:Er.
    destruct (frameLoop m rest (S i) (composite c2 img)) as [r' |] eqn:E;
      cbn [obind] in H; [| discriminate].
    injection H as <-. cbn [snd].
    rewrite (IH (S i) _ r' (Nat.neq_succ_0 i) E), app_nil_r.
    apply Nat.eqb_neq in Hi. rewrite Hi in Er.
    unfold renderImageHalfBlock in Er.
    destruct (calculateImageSize m _) as [w h].
    pose proof (rowLoop_silent
                  (resize_Lanczos3 (uint w) (uint h)
                     (RGBA_Image (imgCopy (currentImage (composite c2 img)))))
                  (Z.quot (Y (Max (Bounds (resize_Lanczos3 (uint w) (uint h)
                     (RGBA_Image (imgCopy (currentImage (composite c2 img)))))))
                           - Y (Min (Bounds (resize_Lanczos3 (uint w) (uint h)
                     (RGBA_Image (imgCopy (currentImage (composite c2 img)))))))
                           + 1) 2)
                  (Z.to_nat (Y (Max (Bounds (resize_Lanczos3 (uint w) (uint h)
                     (RGBA_Image (imgCopy (currentImage (composite c2 img)))))))
                           - Y (Min (Bounds (resize_Lanczos3 (uint w) (uint h)
                     (RGBA_Image (imgCopy (currentImage (composite c2 img)))))))))
                  (Y (Min (Bounds (resize_Lanczos3 (uint w) (uint h)
                     (RGBA_Image (imgCopy (currentImage (composite c2 img))))))))
                  EmptyString 0) as Hs.
    rewrite Er in Hs. exact Hs.
Qed.

(** X17.  Only the first frame reports progress: the progress messages of
    a run of [ProcessGIF] are those of rendering frame 0, composited on
    the fresh canvas; a GIF without frames sends none. *)
Theorem ProcessGIF_progress_first_frame `{Ext : Externals} (m m' : model)
        (sent : list progressMsg) (msg : Msg) :
  ProcessGIF m = Some (m', sent, msg) ->
  match Image (GIF m) with
  | [] => sent = []
  | first :: _ =>
      sent = snd (renderImageHalfBlock
                    m
                    (RGBA_Image
                       (imgCopy (currentImage
                                   (composite (newCanvas (GIF m)) first))))
                    true)
  end.
Proof.
  unfold ProcessGIF. intros H.
  destruct (frameLoop m (Image (GIF m)) 0 (newCanvas (GIF m))) as [r |] eqn:E;
    cbn [obind] in H; [| discriminate].
  injection H as _ <- _.
  destruct (Image (GIF m)) as [| first rest]; cbn [frameLoop] in E.
  - injection E as <-. reflexivity.
  - cbn [savePrevious applyDisposal obind Nat.eqb] in E.
    destruct (renderImageHalfBlock m _ true) as [frame sent0].
    destruct (frameLoop m rest 1 _) as [r' |] eqn:E'; cbn [obind] in E;
      [| discriminate].
    injection E as <-. cbn [snd].
    rewrite (frameLoop_silent m rest 1 _ r' (Nat.neq_succ_0 0) E').
    apply app_nil_r.
Qed.

Lemma ProcessGIF_progress_first_frame_witness :
  exists m' sent,
    @ProcessGIF Sample.plainExternals Sample.loadingModel
    = Some (m', sent, processingCompleteMsg) /\
    List.length sent = 1%nat.
Proof.
  destruct (@ProcessGIF Sample.plainExternals Sample.loadingModel)
    as [[[m' sent] msg] |] eqn:E; [| vm_compute in E; discriminate].
  pose proof (@ProcessGIF_progress_first_frame Sample.plainExternals
                Sample.loadingModel m' sent msg E) as H.
  exists m', sent. split.
  - vm_compute in E. injection E as _ _ <-. reflexivity.
  - cbn [Image GIF Sample.loadingModel Sample.restoreBackgroundGIF] in H.
    rewrite H. vm_compute. reflexivity.
Defined.

(* --------------------------------------------------------------------- *)
(** ** Pixels of the canvas *)

Lemma RGBAAt_byteOK (p : RGBA) (x y : Z) : bytesOK p -> byteOK (RGBAAt p x y).
Proof.
  intros H. unfold RGBAAt.
  assert (Hz : byteOK zeroRGBA8) by (unfold byteOK; cbn; lia).
  destruct (PointIn _ _); [| exact Hz].
  destruct (nth_in_or_default (Z.to_nat (PixOffset (RGBARect p) x y)) (Pix p)
                              zeroRGBA8) as [Hin | ->]; [| exact Hz].
  unfold bytesOK in H. rewrite Forall_forall in H. apply H. exact Hin.
Qed.

Lemma uint8_byte (z : Z) : 0 <= uint8 z < 256.
Proof. unfold uint8. change (2 ^ 8) with 256. apply Z.mod_pos_bound. lia. Qed.

Lemma Draw_bytesOK (dst : RGBA) (r : Rectangle) (src : Source) (sp : Point)
      (op : Op) :
  bytesOK dst ->
  (forall p, src = SrcRGBA p -> bytesOK p) ->
  bytesOK (Draw dst r src sp op).
Proof.
  intros Hd Hs. unfold Draw. destruct (clip _ _ _ _) as [r' sp'].
  destruct (Empty r'); [exact Hd |].
  unfold bytesOK. cbn [Pix]. apply Forall_forall. intros c Hin.
  apply in_map_iff in Hin. destruct Hin as (i & <- & Hi).
  assert (Hnth : byteOK (nth i (Pix dst) zeroRGBA8)).
  { destruct (nth_in_or_default i (Pix dst) zeroRGBA8) as [Hn | ->].
    - unfold bytesOK in Hd. rewrite Forall_forall in Hd. apply Hd. exact Hn.
    - unfold byteOK; cbn; lia. }
  destruct (PointIn _ r'); [| exact Hnth].
  unfold pixelOp.
  destruct op, src as [p | p | c];
    try (apply RGBAAt_byteOK; apply Hs; reflexivity);
    unfold drawRGBAPixel, byteOK, overChannel, srcChannel;
    cbn [R8 G8 B8 A8]; repeat split; apply uint8_byte.
Qed.

Lemma NewRGBA_bytesOK (r : Rectangle) : bytesOK (NewRGBA r).
Proof.
  unfold bytesOK, NewRGBA. cbn [Pix]. apply Forall_forall.
  intros c Hin. apply repeat_spec in Hin. subst c. unfold byteOK; cbn; lia.
Qed.

(** Both buffers hold bytes all along the loop. *)
Lemma canvasAfter_bytesOK (g : Gif.GIF) (n : nat) (c : Canvas) :
  canvasAfter g n = Some c ->
  bytesOK (currentImage c) /\ bytesOK (previousImage c).
Proof.
  revert c. induction n as [| n IH]; intros c H;
    cbn [canvasAfter obind] in H.
  - injection H as <-. unfold newCanvas.
    destruct (getGifDimensions g) as [w h]. cbn [currentImage previousImage].
    split; apply NewRGBA_bytesOK.
  - destruct (canvasAfter g n) as [c0 |]; cbn [obind] in H; [| discriminate].
    destruct (IH c0 eq_refl) as [Hc0 Hp0].
    destruct (nth_error (Image g) n) as [img |]; cbn [obind] in H;
      [| discriminate].
    destruct (savePrevious g n c0) as [c1 |] eqn:E1; cbn [obind] in H;
      [| discriminate].
    assert (H1 : bytesOK (currentImage c1) /\ bytesOK (previousImage c1)).
    { destruct n as [| j]; cbn [savePrevious] in E1.
      - injection E1 as <-. auto.
      - destruct (nth_error (Disposal g) j) as [d |]; cbn [obind] in E1;
          [| discriminate].
        injection E1 as <-. destruct (d =? DisposalPrevious); [| auto].
        cbn [currentImage previousImage]. split; [exact Hc0 |].
        apply Draw_bytesOK; [exact Hp0 |]. intros p E. injection E as <-.
        exact Hc0. }
    destruct H1 as [Hc1 Hp1].
    destruct (applyDisposal g n c1) as [c2 |] eqn:E2; cbn [obind] in H;
      [| discriminate].
    assert (H2 : bytesOK (currentImage c2) /\ bytesOK (previousImage c2)).
    { destruct n as [| j]; cbn [applyDisposal] in E2.
      - injection E2 as <-. auto.
      - destruct (nth_error (Image g) j) as [prevImg |]; cbn [obind] in E2;
          [| discriminate].
        destruct (nth_error (Disposal g) j) as [d |]; cbn [obind] in E2;
          [| discriminate].
        injection E2 as <-. cbn [currentImage previousImage].
        split; [| exact Hp1]. unfold processFrame.
        destruct (d =? DisposalBackground).
        + apply Draw_bytesOK; [exact Hc1 |]. intros p E. discriminate.
        + destruct (d =? DisposalPrevious); [| exact Hc1].
          apply Draw_bytesOK; [exact Hc1 |]. intros p E. injection E as <-.
          exact Hp1. }
    destruct H2 as [Hc2 Hp2].
    injection H as <-. unfold composite. cbn [currentImage previousImage].
    split; [| exact Hp2].
    apply Draw_bytesOK; [exact Hc2 |]. intros p E. discriminate.
Qed.

Lemma canvasRect_origin (g : Gif.GIF) :
  canvasSizeOK g -> Min (canvasRect g) = ZP.
Proof.
  intros [Hw Hh]. unfold canvasRect, Rect.
  destruct (Z.ltb_spec (fst (getGifDimensions g)) 0); [lia |].
  destruct (Z.ltb_spec (snd (getGifDimensions g)) 0); [lia |].
  reflexivity.
Qed.

(** A pixel after a frame was drawn "over" a buffer whose bounds start at
    the origin. *)
Lemma RGBAAt_over (cur : RGBA) (img : Paletted) (x y : Z) :
  bufferOK cur ->
  Min (RGBARect cur) = ZP ->
  RGBAAt (Draw cur (RGBARect cur) (SrcPaletted img) ZP Over) x y
  = if PointIn (mkPoint x y) (RGBARect cur) && PointIn (mkPoint x y) (PRect img)
    then drawRGBAPixel Over (RGBAAt cur x y) (PalettedAt img x y)
    else RGBAAt cur x y.
Proof.
  intros Hok Hmin. rewrite RGBAAt_Draw by exact Hok.
  unfold clip. cbn [SourceImage Paletted_Image Bounds]. rewrite Hmin.
  set (b := RGBARect cur).
  assert (Hshift : RectAdd (PRect img) (PointSub ZP ZP) = PRect img).
  { unfold RectAdd, PointSub, ZP. cbn [X Y].
    destruct (PRect img) as [[a1 a2] [a3 a4]]. cbn [X Y Min Max].
    rewrite !Z.add_0_r. reflexivity. }
  rewrite Hshift.
  set (r2 := Intersect (Intersect b b) (PRect img)).
  assert (Hin : PointIn (mkPoint x y) r2
                = PointIn (mkPoint x y) b && PointIn (mkPoint x y) (PRect img)).
  { unfold r2. rewrite !PointIn_Intersect.
    destruct (PointIn (mkPoint x y) b); reflexivity. }
  destruct (Empty r2) eqn:Ee; cbn [negb andb].
  - rewrite (Empty_PointIn r2 _ Ee) in Hin. rewrite <- Hin. reflexivity.
  - rewrite Hin.
    destruct (PointIn (mkPoint x y) b) eqn:Hb; cbn [andb]; [| reflexivity].
    destruct (PointIn (mkPoint x y) (PRect img)); [| reflexivity].
    unfold pixelOp. cbn [SourceImage Paletted_Image At X Y ZP].
    replace (0 + (X (Min r2) - 0) + (x - X (Min r2))) with x by lia.
    replace (0 + (Y (Min r2) - 0) + (y - Y (Min r2))) with y by lia.
    reflexivity.
Qed.

(** X18.  Frame [i] is drawn "over" the canvas it is composited on: the
    canvas keeps its bounds; outside the frame's bounds every pixel is
    kept; inside, a pixel whose palette color is fully transparent is
    kept and a pixel whose palette color is opaque is replaced by that
    color. *)
Theorem frame_drawn_over_base (g : Gif.GIF) (i : nat) (img : Paletted)
        (base : RGBA) :
  canvasSizeOK g ->
  nth_error (Image g) i = Some img ->
  baseFor g i = Some base ->
  exists after,
    drawnAfter g i = Some after /\
    RGBARect after = RGBARect base /\
    forall x y,
      (PointIn (mkPoint x y) (PRect img) = false ->
       RGBAAt after x y = RGBAAt base x y) /\
      (PalettedAt img x y = Transparent ->
       RGBAAt after x y = RGBAAt base x y) /\
      (forall col,
          PointIn (mkPoint x y) (RGBARect base) = true ->
          PointIn (mkPoint x y) (PRect img) = true ->
          PalettedAt img x y = RGBA8_RGBA col ->
          byteOK col -> A8 col = 255 ->
          RGBAAt after x y = col).
Proof.
  intros Hsize Hi Hb. unfold baseFor in Hb.
  destruct (canvasAfter g i) as [c |] eqn:Hc; cbn [obind] in Hb;
    [| discriminate].
  rewrite Hi in Hb. cbn [obind] in Hb.
  destruct (savePrevious g i c) as [c1 |] eqn:E1; cbn [obind] in Hb;
    [| discriminate].
  destruct (applyDisposal g i c1) as [c2 |] eqn:E2; cbn [obind] in Hb;
    [| discriminate].
  injection Hb as <-.
  assert (Hafter : canvasAfter g (S i) = Some (composite c2 img)).
  { cbn [canvasAfter]. rewrite Hc. cbn [obind]. rewrite Hi. cbn [obind].
    rewrite E1. cbn [obind]. rewrite E2. reflexivity. }
  pose proof (canvasAfter_OK g i c Hc) as Hok0.
  pose proof (savePrevious_OK g i _ c c1 Hok0 E1) as Hok1.
  pose proof (applyDisposal_OK g i _ c1 c2 Hok1 E2) as (Hbuf & _ & Hrect & _).
  assert (Hbytes : bytesOK (currentImage c2)).
  { destruct (canvasAfter_bytesOK g i c Hc) as [Hc0 Hp0].
    destruct i as [| j]; cbn [savePrevious applyDisposal] in E1, E2.
    - injection E1 as <-. injection E2 as <-. exact Hc0.
    - destruct (nth_error (Disposal g) j) as [d |]; cbn [obind] in E1;
        [| discriminate].
      destruct (nth_error (Image g) j) as [prevImg |]; cbn [obind] in E2;
        [| discriminate].
      injection E2 as <-. injection E1 as <-. cbn [currentImage previousImage].
      unfold processFrame.
      destruct (d =? DisposalBackground).
      + apply Draw_bytesOK; [destruct (d =? DisposalPrevious); exact Hc0 |].
        intros p E. discriminate.
      + destruct (d =? DisposalPrevious) eqn:Ed;
          cbn [currentImage previousImage]; [| exact Hc0].
        apply Draw_bytesOK; [exact Hc0 |]. intros p E. injection E as <-.
        apply Draw_bytesOK; [exact Hp0 |]. intros p E. injection E as <-.
        exact Hc0. }
  assert (Hmin : Min (RGBARect (currentImage c2)) = ZP)
    by (rewrite Hrect; apply canvasRect_origin; exact Hsize).
  exists (currentImage (composite c2 img)).
  split; [unfold drawnAfter; rewrite Hafter; reflexivity |].
  split; [apply Draw_Rect |].
  intros x y. unfold composite. cbn [currentImage].
  rewrite (RGBAAt_over _ img x y Hbuf Hmin).
  pose proof (RGBAAt_byteOK (currentImage c2) x y Hbytes)
    as (HbR & HbG & HbB & HbA).
  split; [| split].
  - intros Hout. rewrite Hout, andb_false_r. reflexivity.
  - intros Ht. destruct (_ && _); [| reflexivity].
    rewrite Ht. unfold drawRGBAPixel, Transparent. cbn [cR cG cB cA].
    rewrite !overChannel_transparent by assumption.
    destruct (RGBAAt (currentImage c2) x y). reflexivity.
  - intros col Hin1 Hin2 Hcol (HcR & HcG & HcB & HcA) Ha.
    rewrite Hin1, Hin2. cbn [andb]. rewrite Hcol.
    unfold drawRGBAPixel, RGBA8_RGBA. cbn [cR cG cB cA].
    rewrite !widen_byte by assumption. rewrite Ha.
    change (255 * 257) with 65535.
    rewrite !overChannel_opaque by assumption.
    change (overChannel (A8 (RGBAAt (currentImage c2) x y)) 65535 65535)
      with (overChannel (A8 (RGBAAt (currentImage c2) x y)) (255 * 257) 65535).
    rewrite overChannel_opaque by lia.
    destruct col as [r8 g8 b8 a8]. cbn [A8] in Ha. subst a8. reflexivity.
Qed.

Lemma frame_drawn_over_base_witness :
  exists after,
    drawnAfter Sample.restoreBackgroundGIF 1 = Some after /\
    RGBAAt after 0 0 = Sample.red /\
    RGBAAt after 1 1 = Sample.green.
Proof.
  destruct (baseFor Sample.restoreBackgroundGIF 1) as [base |] eqn:Hb;
    [| vm_compute in Hb; discriminate].
  destruct (frame_drawn_over_base Sample.restoreBackgroundGIF 1
              Sample.greenCorner base) as (after & Ha & _ & Hpix).
  - split; vm_compute; discriminate.
  - reflexivity.
  - exact Hb.
  - exists after. split; [exact Ha |].
    vm_compute in Hb. injection Hb as <-.
    split.
    + destruct (Hpix 0 0) as (Hout & _). rewrite Hout; reflexivity.
    + destruct (Hpix 1 1) as (_ & _ & Hop). apply Hop.
      * reflexivity.
      * reflexivity.
      * reflexivity.
      * unfold byteOK. cbn. lia.
      * reflexivity.
Defined.

(** X19.  The image handed to the renderer is an exact copy of the canvas
    after the frame was drawn. *)
Theorem imgCopy_is_exact (g : Gif.GIF) (n : nat) (c : Canvas) :
  canvasSizeOK g ->
  canvasAfter g n = Some c ->
  imgCopy (currentImage c) = currentImage c.
Proof.
  intros Hsize Hc.
  pose proof (canvasAfter_OK g n c Hc) as ((Hx & Hy & Hl) & _ & Hrect & _).
  unfold imgCopy.
  change (RGBARect (NewRGBA (RGBARect (currentImage c))))
    with (RGBARect (currentImage c)).
  apply (Draw_copy (NewRGBA (RGBARect (currentImage c))) (currentImage c)).
  - apply NewRGBA_bufferOK; assumption.
  - repeat split; assumption.
  - reflexivity.
  - cbn [NewRGBA RGBARect]. rewrite Hrect.
    apply canvasRect_origin. exact Hsize.
Qed.

Lemma imgCopy_is_exact_witness :
  exists c,
    canvasAfter Sample.restoreBackgroundGIF 2 = Some c /\
    imgCopy (currentImage c) = currentImage c.
Proof.
  destruct (canvasAfter Sample.restoreBackgroundGIF 2) as [c |] eqn:Hc;
    [| vm_compute in Hc; discriminate].
  exists c. split; [reflexivity |].
  apply (imgCopy_is_exact Sample.restoreBackgroundGIF 2 c).
  - split; vm_compute; discriminate.
  - exact Hc.
Defined.

(** X20.  Unless frame [i] asks for "restore to background", frame [i+1]
    is composited on the canvas exactly as frame [i] left it: that is so
    for "do not dispose", for an unspecified code, and also for "restore
    to previous". *)
Theorem base_is_previous_frame (g : Gif.GIF) (i : nat) (d : Z)
        (next : Paletted) :
  canvasSizeOK g ->
  nth_error (Image g) (S i) = Some next ->
  nth_error (Disposal g) i = Some d ->
  d <> DisposalBackground ->
  exists after,
    drawnAfter g i = Some after /\ baseFor g (S i) = Some after.
Proof.
  intros Hsize Hn Hd Hne.
  destruct (canvasAfter_total g (S i)) as [c Hc].
  - apply Nat.lt_le_incl. apply nth_error_Some. congruence.
  - assert (i < List.length (Disposal g))%nat
      by (apply nth_error_Some; congruence).
    lia.
  - exists (currentImage c).
    assert (Ha : drawnAfter g i = Some (currentImage c))
      by (unfold drawnAfter; rewrite Hc; reflexivity).
    split; [exact Ha |].
    destruct (Z.eq_dec d DisposalPrevious) as [-> | Hnp].
    + apply (restorePrevious_keeps_frame g i next); assumption.
    + assert (Hi : exists img, nth_error (Image g) i = Some img).
      { destruct (nth_error (Image g) i) as [img |] eqn:E;
          [eexists; reflexivity |].
        apply nth_error_None in E.
        assert (S i < List.length (Image g))%nat
          by (apply nth_error_Some; congruence).
        lia. }
      destruct Hi as [img Hi].
      unfold baseFor. rewrite Hc. cbn [obind]. rewrite Hn. cbn [obind].
      cbn [savePrevious applyDisposal]. rewrite Hd. cbn [obind].
      apply Z.eqb_neq in Hnp. rewrite Hnp. rewrite Hi. cbn [obind].
      unfold processFrame. apply Z.eqb_neq in Hne. rewrite Hne, Hnp.
      reflexivity.
Qed.

Lemma base_is_previous_frame_witness :
  exists after,
    drawnAfter Sample.restorePreviousGIF 0 = Some after /\
    baseFor Sample.restorePreviousGIF 1 = Some after /\
    RGBAAt after 0 0 = Sample.red.
Proof.
  destruct (base_is_previous_frame Sample.restorePreviousGIF 0
              DisposalPrevious Sample.clearDot) as (after & Ha & Hb).
  - split; vm_compute; discriminate.
  - reflexivity.
  - reflexivity.
  - discriminate.
  - exists after. split; [exact Ha |]. split; [exact Hb |].
    vm_compute in Ha. injection Ha as <-. reflexivity.
Defined.

(* --------------------------------------------------------------------- *)
(** ** The canvas of a decoded GIF *)

Lemma getGifDimensions_range (g : Gif.GIF) :
  framesInRange g ->
  0 <= fst (getGifDimensions g) <= 131070 /\
  0 <= snd (getGifDimensions g) <= 131070.
Proof.
  intros Hall. unfold framesInRange in Hall.
  unfold getGifDimensions. rewrite getGifDimensions_fold.
  change (Spec.minimum 0) with Spec.lowest.
  change (Spec.maximum 0) with Spec.highest.
  cbn [fst snd].
  set (minXs := map (fun f => X (Min (PRect f))) (Image g)) in *.
  set (minYs := map (fun f => Y (Min (PRect f))) (Image g)) in *.
  set (maxXs := map (fun f => X (Max (PRect f))) (Image g)) in *.
  set (maxYs := map (fun f => Y (Max (PRect f))) (Image g)) in *.
  destruct (lowest_spec minXs) as (Lx0 & _ & Lxin).
  destruct (lowest_spec minYs) as (Ly0 & _ & Lyin).
  destruct (highest_spec maxXs) as (Hx0 & _ & Hxin).
  destruct (highest_spec maxYs) as (Hy0 & _ & Hyin).
  rewrite Forall_forall in Hall.
  assert (Lx : Spec.lowest minXs = 0).
  { destruct Lxin as [E0 | Hi]; [exact E0 |].
    apply in_map_iff in Hi. destruct Hi as (f' & Ef & Hf').
    specialize (Hall f' Hf'). lia. }
  assert (Ly : Spec.lowest minYs = 0).
  { destruct Lyin as [E0 | Hi]; [exact E0 |].
    apply in_map_iff in Hi. destruct Hi as (f' & Ef & Hf').
    specialize (Hall f' Hf'). lia. }
  assert (Hx : Spec.highest maxXs <= 131070).
  { destruct Hxin as [E0 | Hi]; [rewrite E0; lia |].
    apply in_map_iff in Hi. destruct Hi as (f' & Ef & Hf').
    specialize (Hall f' Hf'). lia. }
  assert (Hy : Spec.highest maxYs <= 131070).
  { destruct Hyin as [E0 | Hi]; [rewrite E0; lia |].
    apply in_map_iff in Hi. destruct Hi as (f' & Ef & Hf').
    specialize (Hall f' Hf'). lia. }
  rewrite Lx, Ly, !Z.sub_0_r.
  rewrite !int_small by (unfold minInt, maxInt; lia). lia.
Qed.

(** X21.  For a GIF as the decoder delivers it (every frame between (0,0)
    and (131070,131070)) the canvas size does not overflow, it is at most
    131070 x 131070, and the canvas contains every pixel of every
    frame. *)
Theorem decoded_frames_inside_canvas (g : Gif.GIF) :
  framesInRange g ->
  canvasSizeOK g /\
  fst (getGifDimensions g) <= 131070 /\
  snd (getGifDimensions g) <= 131070 /\
  forall f x y,
    In f (Image g) ->
    PointIn (mkPoint x y) (PRect f) = true ->
    PointIn (mkPoint x y) (canvasRect g) = true.
Proof.
  intros Hall. destruct (getGifDimensions_range g Hall) as [Hw Hh].
  split; [split; lia |]. split; [lia |]. split; [lia |].
  intros f x y Hin Hp.
  destruct (getGifDimensions_covers g f) as [Cx Cy]; [| exact Hin |].
  { unfold framesInRange in Hall. eapply Forall_impl; [| exact Hall].
    cbv beta. intros a (H1 & H2 & H3 & H4).
    change (2 ^ 62) with 4611686018427387904. lia. }
  unfold framesInRange in Hall. rewrite Forall_forall in Hall.
  destruct (Hall f Hin) as (M1 & M2 & _ & _).
  unfold canvasRect, Rect.
  destruct (Z.ltb_spec (fst (getGifDimensions g)) 0); [lia |].
  destruct (Z.ltb_spec (snd (getGifDimensions g)) 0); [lia |].
  unfold PointIn in *. cbn [X Y Min Max] in *.
  rewrite !andb_true_iff, !Z.leb_le, !Z.ltb_lt in *. lia.
Qed.

Lemma decoded_frames_inside_canvas_witness :
  getGifDimensions Sample.offsetGIF = (48, 48) /\
  PointIn (mkPoint 47 47) (canvasRect Sample.offsetGIF) = true.
Proof.
  split; [reflexivity |].
  destruct (decoded_frames_inside_canvas Sample.offsetGIF) as (_ & _ & _ & H).
  - repeat constructor; vm_compute; discriminate.
  - apply (H Sample.offsetFrame 47 47); [left |]; reflexivity.
Defined.

(* --------------------------------------------------------------------- *)
(** ** The text of a frame and its progress messages *)

Lemma string_app_assoc (a b c : string) :
  ((a ++ b) ++ c)%string = (a ++ b ++ c)%string.
Proof.
  induction a as [| x a IH]; [reflexivity |].
  cbn [String.append]. rewrite IH. reflexivity.
Qed.

(** The text only grows, and every message holds the text as it was when
    the message was sent. *)
Lemma rowLoop_prefix `{Ext : Externals} (resized : Img.Image) (total : Z)
      (chan : bool) (fuel : nat) (y : Z) (sb : string) (row : Z) :
  (exists rest,
      fst (rowLoop resized total chan fuel y sb row) = (sb ++ rest)%string) /\
  (forall msg,
      In msg (snd (rowLoop resized total chan fuel y sb row)) ->
      exists rest,
        fst (rowLoop resized total chan fuel y sb row)
        = (partialFrame msg ++ rest)%string).
Proof.
  assert (Hnil : forall s : string, (s ++ EmptyString)%string = s).
  { intros s. induction s as [| x s IH]; [reflexivity |].
    cbn [String.append]. rewrite IH. reflexivity. }
  revert y sb row. induction fuel as [| fuel IH]; intros y sb row.
  - cbn [rowLoop fst snd]. split; [| intros msg []].
    exists EmptyString. symmetry. apply Hnil.
  - cbn [rowLoop]. destruct (y <? Y (Max (Bounds resized))).
    + specialize (IH (y + 2) (sb ++ renderRow resized y ++ newline)%string
                     (row + 1)).
      destruct (rowLoop resized total chan fuel (y + 2) _ (row + 1))
        as [text later].
      cbn [fst snd] in *. destruct IH as ([rest Hrest] & Hlater).
      split.
      * exists ((renderRow resized y ++ newline) ++ rest)%string.
        rewrite Hrest. apply string_app_assoc.
      * intros msg Hin. apply in_app_or in Hin. destruct Hin as [Hin | Hin].
        -- destruct (chan && _); [| destruct Hin].
           destruct Hin as [<- | []]. cbn [partialFrame].
           exists rest. exact Hrest.
        -- apply Hlater. exact Hin.
    + cbn [fst snd]. split; [| intros msg []].
      exists EmptyString. symmetry. apply Hnil.
Qed.

(** The text does not depend on whether progress is reported. *)
Lemma rowLoop_text `{Ext : Externals} (resized : Img.Image) (total : Z)
      (fuel : nat) (y : Z) (sb : string) (row : Z) :
  fst (rowLoop resized total true fuel y sb row)
  = fst (rowLoop resized total false fuel y sb row).
Proof.
  revert y sb row. induction fuel as [| fuel IH]; intros y sb row;
    [reflexivity |].
  cbn [rowLoop]. destruct (y <? Y (Max (Bounds resized))); [| reflexivity].
  specialize (IH (y + 2) (sb ++ renderRow resized y ++ newline)%string
                 (row + 1)).
  destruct (rowLoop resized total true fuel (y + 2) _ (row + 1)).
  destruct (rowLoop resized total false fuel (y + 2) _ (row + 1)).
  exact IH.
Qed.

(** With enough fuel and a row left, the last message is sent with the
    last row: it holds the whole text and counts all rows. *)
Lemma rowLoop_last `{Ext : Externals} (resized : Img.Image) (total : Z)
      (fuel : nat) (y : Z) (sb : string) (row : Z) :
  y < Y (Max (Bounds resized)) ->
  Y (Max (Bounds resized)) - y <= Z.of_nat fuel ->
  exists earlier,
    snd (rowLoop resized total true fuel y sb row)
    = earlier ++
      [mkProgressMsg (fst (rowLoop resized total true fuel y sb row))
                     (row + (Y (Max (Bounds resized)) - y + 1) / 2) total].
Proof.
  set (maxY := Y (Max (Bounds resized))).
  revert y sb row. induction fuel as [| fuel IH]; intros y sb row Hy Hf;
    [lia |].
  cbn [rowLoop]. fold maxY.
  destruct (Z.ltb_spec y maxY) as [_ | Hge]; [| lia].
  cbn [andb].
  destruct (Z.leb_spec maxY (y + 2)) as [Hlast | Hmore].
  - rewrite orb_true_r.
    assert (Hstop : rowLoop resized total true fuel (y + 2)
                            (sb ++ renderRow resized y ++ newline)%string
                            (row + 1)
                    = ((sb ++ renderRow resized y ++ newline)%string, [])).
    { destruct fuel as [| fuel']; [reflexivity |].
      cbn [rowLoop]. fold maxY.
      destruct (Z.ltb_spec (y + 2) maxY); [lia | reflexivity]. }
    rewrite Hstop. cbn [fst snd app]. exists [].
    cbn [app]. do 3 f_equal.
    assert (E : (maxY - y + 1) / 2 = 1).
    { symmetry. apply Z.div_unique with (r := maxY - y + 1 - 2); lia. }
    lia.
  - specialize (IH (y + 2) (sb ++ renderRow resized y ++ newline)%string
                   (row + 1)).
    destruct IH as [earlier He]; [lia | lia |].
    destruct (rowLoop resized total true fuel (y + 2) _ (row + 1))
      as [text later].
    cbn [fst snd] in *.
    exists ((if (Z.rem (row + 1) 2 =? 0) || false
             then [mkProgressMsg (sb ++ renderRow resized y ++ newline)
                                 (row + 1) total]
             else []) ++ earlier).
    rewrite He, app_assoc.
    replace (row + 1 + (maxY - (y + 2) + 1) / 2)
      with (row + (maxY - y + 1) / 2).
    + reflexivity.
    + replace (maxY - y + 1) with (maxY - (y + 2) + 1 + 1 * 2) by lia.
      rewrite Z.div_add by lia. lia.
Qed.

(** X22.  When the resampled frame has at least one pixel row, progress
    reporting ends with a message that holds the complete text of the
    frame and reports all rows done ([rowsComplete] = [totalRows]). *)
Theorem progress_ends_with_whole_frame `{Ext : Externals} (m : model)
        (img : Img.Image) :
  let resized :=
    resize_Lanczos3 (uint (fst (calculateImageSize m img)))
                    (uint (snd (calculateImageSize m img))) img in
  let bounds := Bounds resized in
  Y (Min bounds) < Y (Max bounds) ->
  exists earlier last,
    snd (renderImageHalfBlock m img true) = earlier ++ [last] /\
    partialFrame last = fst (renderImageHalfBlock m img true) /\
    rowsComplete last = totalRows last /\
    totalRows last = Z.quot (Y (Max bounds) - Y (Min bounds) + 1) 2.
Proof.
  intros resized bounds Hrows.
  unfold renderImageHalfBlock.
  destruct (calculateImageSize m img) as [w h]. cbn [fst snd] in *.
  fold resized. fold bounds.
  destruct (rowLoop_last resized
              (Z.quot (Y (Max bounds) - Y (Min bounds) + 1) 2)
              (Z.to_nat (Y (Max bounds) - Y (Min bounds)))
              (Y (Min bounds)) EmptyString 0) as [earlier He].
  - exact Hrows.
  - fold bounds. lia.
  - fold bounds in He. exists earlier. eexists. split; [exact He |].
    cbn [partialFrame rowsComplete totalRows].
    split; [reflexivity |]. split; [| reflexivity].
    rewrite Z.quot_div_nonneg by lia. lia.
Qed.

Lemma progress_ends_with_whole_frame_witness :
  exists earlier last,
    snd (@renderImageHalfBlock Sample.threeRows Sample.narrowModel
           Sample.wideImage true) = earlier ++ [last] /\
    partialFrame last
    = fst (@renderImageHalfBlock Sample.threeRows Sample.narrowModel
             Sample.wideImage true) /\
    rowsComplete last = totalRows last /\
    totalRows last = 2.
Proof.
  apply (@progress_ends_with_whole_frame Sample.threeRows Sample.narrowModel
           Sample.wideImage).
  vm_compute. reflexivity.
Defined.

(** X23.  A progress message shows the beginning of the frame: its partial
    text is a prefix of the text the renderer returns. *)
Theorem progress_is_prefix_of_frame `{Ext : Externals} (m : model)
        (img : Img.Image) (chan : bool) (msg : progressMsg) :
  In msg (snd (renderImageHalfBlock m img chan)) ->
  String.prefix (partialFrame msg) (fst (renderImageHalfBlock m img chan))
  = true.
Proof.
  unfold renderImageHalfBlock.
  destruct (calculateImageSize m img) as [w h].
  intros Hin. apply prefix_app.
  eapply rowLoop_prefix. exact Hin.
Qed.

Lemma progress_is_prefix_of_frame_witness :
  exists msg,
    In msg (snd (@renderImageHalfBlock Sample.threeRows Sample.narrowModel
                   Sample.wideImage true)) /\
    String.prefix (partialFrame msg)
                  (fst (@renderImageHalfBlock Sample.threeRows
                          Sample.narrowModel Sample.wideImage true))
    = true.
Proof.
  eexists. split.
  - vm_compute. left. reflexivity.
  - apply (@progress_is_prefix_of_frame Sample.threeRows Sample.narrowModel
             Sample.wideImage true).
    vm_compute. left. reflexivity.
Defined.

(** X24.  Reporting progress does not change the rendering: with and
    without a progress channel the renderer returns the same text, and
    without one it sends nothing. *)
Theorem progress_leaves_frame_alone `{Ext : Externals} (m : model)
        (img : Img.Image) :
  fst (renderImageHalfBlock m img true)
  = fst (renderImageHalfBlock m img false) /\
  snd (renderImageHalfBlock m img false) = [].
Proof.
  unfold renderImageHalfBlock.
  destruct (calculateImageSize m img) as [w h].
  split; [apply rowLoop_text | apply rowLoop_silent].
Qed.
